(** * PJ.py: the [LuaCompiler] tree rewriter

    A shallow embedding of [src/PJ.py].  [LuaCompiler] is a subclass of
    Python's [ast.NodeTransformer]: [visit] dispatches on the class of a
    node to the method [visit_<Class>], falling back on [generic_visit],
    which walks the fields of the node and replaces every child by the
    result of visiting it.

    - The node classes are the constructors of [expr] and [stmt]; an
      attribute that a class does not have raises [AttributeError], an
      index out of a list raises [IndexError], as in Python.
    - The instance attribute [self.scope_stack] is threaded through every
      method as explicit state.
    - Rules change nodes in place; on a tree, where every node has one
      owner, that is the same as building the changed node, which is what
      the definitions do.  The one rule that makes two nodes share a child
      is also given on a heap of objects, in [Obj].
    - [self.visit] is a general recursive call (rules visit nodes they have
      just built or changed), so the traversal is defined by recursion on a
      budget of nested calls; a budget that covers the depth of the tree is
      enough, and the outcome is then the same for every such budget. *)

From stdpp Require Import prelude strings.

Set Warnings "-register-all".

Open Scope string_scope.
Open Scope list_scope.

(** ** Node model (the classes of Python's [ast] module that the rules use) *)

Inductive expr_context := Load | Store | Del.

Inductive operator :=
  Add | Sub | Mult | Div | FloorDiv | Mod | Pow.

Inductive unaryop := Invert | Not | UAdd | USub.

Inductive cmpop :=
  Eq | NotEq | Lt | LtE | Gt | GtE | Is | IsNot | In | NotIn.

(** [ast.Constant] holds a Python value in its [value] field.  [visit_For]
    stores an AST node there, hence [CNode].  [ast.Str(s=...)] builds, and
    [isinstance(_, ast.Str)] recognises, a [Constant] holding a string.
    Left out: the [kind] of a [Constant] and the [keywords] of a [Call],
    which no rule reads ([kind] is [None] and [keywords] is empty in every
    node the program builds). *)
Inductive expr :=
| BinOp (left_ : expr) (op : operator) (right_ : expr)
| UnaryOp (uop : unaryop) (operand : expr)
| Compare (left_ : expr) (ops : list cmpop) (comparators : list expr)
| Call (func : expr) (args : list expr)
| Name (id : string) (ctx : expr_context)
| Constant (value : constant)
with constant :=
| CNone
| CBool (b : bool)
| CInt (z : Z)
| CStr (s : string)
| CNode (node : expr).

(** The [value] of an [Assign] is an expression in every parsed tree;
    [visit_Return] copies the optional [value] of a [Return] into it.
    A [FunctionDef] keeps its name, the names of its parameters and its
    body; decorators, defaults and annotations are left out. *)
Inductive stmt :=
| FunctionDef (name : string) (params : list string) (body : list stmt)
| If (test : expr) (body orelse : list stmt)
| For (target iter : expr) (body orelse : list stmt)
| While (test : expr) (body orelse : list stmt)
| Assign (targets : list expr) (value : option expr)
| AugAssign (target : expr) (op : operator) (value : expr)
| Return (value : option expr)
| Expr (value : expr).

(** [ast.Module]; [Module] and [mod] are taken in Rocq. *)
Inductive py_mod := PyModule (body : list stmt).

(** What a visitor method hands back to [generic_visit]: a node, or a list
    of nodes to be spliced in place of the visited one. *)
Inductive visited :=
| VNode (node : stmt)
| VList (nodes : list stmt).

(** ** Exceptions and the state of the transformer *)

Inductive exn := SyntaxError | AttributeError | IndexError.

Record LuaCompiler := mkLuaCompiler { scope_stack : list string }.

(** [__init__] *)
Definition init : LuaCompiler := {| scope_stack := [] |}.

Inductive outcome (A : Type) :=
| Returns (a : A) (self : LuaCompiler)
| Raises (e : exn)
| OutOfBudget.
Arguments Returns {A} a self.
Arguments Raises {A} e.
Arguments OutOfBudget {A}.

Definition M (A : Type) := LuaCompiler -> outcome A.

Definition ret {A} (a : A) : M A := fun self => Returns a self.
Definition raise {A} (e : exn) : M A := fun _ => Raises e.
Definition out_of_budget {A} : M A := fun _ => OutOfBudget.
Definition bind {A B} (m : M A) (k : A -> M B) : M B :=
  fun self =>
    match m self with
    | Returns a self' => k a self'
    | Raises e => Raises e
    | OutOfBudget => OutOfBudget
    end.
Definition get_scope_stack : M (list string) :=
  fun self => Returns (scope_stack self) self.

Notation "'let*' x ':=' m 'in' k" := (bind m (fun x => k))
  (at level 10, x name, m at level 100, k at level 200).

(** [l[i]] *)
Definition index {A} (l : list A) (i : nat) : M A :=
  match l !! i with
  | Some a => ret a
  | None => raise IndexError
  end.

(** The loop of [generic_visit] over a list field whose elements are
    expressions: every visitor of an expression returns a node. *)
Definition visit_exprs (visit : expr -> M expr) : list expr -> M (list expr) :=
  fix go (old_value : list expr) :=
    match old_value with
    | [] => ret []
    | value :: rest =>
        let* value' := visit value in
        let* new_values := go rest in
        ret (value' :: new_values)
    end.

Definition splice (v : visited) : list stmt :=
  match v with
  | VNode node => [node]
  | VList nodes => nodes
  end.

(** The same loop over a list of statements: a node is appended, a list
    extends the new list. *)
Definition visit_stmts (visit : stmt -> M visited) : list stmt -> M (list stmt) :=
  fix go (old_value : list stmt) :=
    match old_value with
    | [] => ret []
    | value :: rest =>
        let* value' := visit value in
        let* new_values := go rest in
        ret (splice value' ++ new_values)
    end.

(** A field that holds a node or [None]. *)
Definition visit_opt (visit : expr -> M expr) (old_value : option expr)
  : M (option expr) :=
  match old_value with
  | Some node => let* new_node := visit node in ret (Some new_node)
  | None => ret None
  end.

(** ** Attributes read on a node whose class the code does not check *)

Definition getattr_test (node : stmt) : M expr :=
  match node with
  | If test _ _ | While test _ _ => ret test
  | _ => raise AttributeError
  end.

Definition getattr_body (node : stmt) : M (list stmt) :=
  match node with
  | FunctionDef _ _ body | If _ body _ | For _ _ body _ | While _ body _ =>
      ret body
  | _ => raise AttributeError
  end.

Definition getattr_orelse (node : stmt) : M (list stmt) :=
  match node with
  | If _ _ orelse | For _ _ _ orelse | While _ _ orelse => ret orelse
  | _ => raise AttributeError
  end.

(** The node after its [orelse] list has changed. *)
Definition with_orelse (node : stmt) (orelse : list stmt) : stmt :=
  match node with
  | If test body _ => If test body orelse
  | For target iter body _ => For target iter body orelse
  | While test body _ => While test body orelse
  | _ => node
  end.

Definition getattr_id (node : expr) : M string :=
  match node with
  | Name id _ => ret id
  | _ => raise AttributeError
  end.

Definition getattr_args (node : expr) : M (list expr) :=
  match node with
  | Call _ args => ret args
  | _ => raise AttributeError
  end.

Definition isinstance_If (node : stmt) : bool :=
  match node with If _ _ _ => true | _ => false end.

Definition isinstance_Str (node : expr) : bool :=
  match node with Constant (CStr _) => true | _ => false end.

(** ** The rules that do not visit children *)

(** Lines 26-32.  [current_if] only ever moves to a node of its own
    [orelse] list, and the nodes of a tree are not shared, so what the
    rest of the loop appends lands below the node chosen here: the result
    is [current_if] as it stands when the loop is over. *)
Fixpoint chain_orelse (current_if : stmt) (entries : list stmt) : M stmt :=
  match entries with
  | [] => ret current_if
  | orelse :: rest =>
      let* slot := getattr_orelse current_if in
      if isinstance_If orelse then
        (* current_if.orelse.append(orelse); current_if = orelse *)
        let* next := chain_orelse orelse rest in
        ret (with_orelse current_if (slot ++ [next]))
      else
        (* current_if.orelse.append(ast.If(...)); current_if = current_if.orelse[0] *)
        let* test := getattr_test orelse in
        let* body := getattr_body orelse in
        let slot' := slot ++ [If test body []] in
        let* first := index slot' 0 in
        let* next := chain_orelse first rest in
        ret (with_orelse current_if (<[0 := next]> slot'))
  end.

Definition visit_If (node : stmt) : M visited :=
  let* orelse := getattr_orelse node in
  if (length orelse =? 0)%nat then ret (VNode node)
  else
    let* test := getattr_test node in
    let* body := getattr_body node in
    let if_stmt := If test body [] in
    let* if_stmt := chain_orelse if_stmt orelse in
    ret (VNode if_stmt).

Definition visit_For (node : stmt) : M visited :=
  match node with
  | For target_node iter body _ =>
      let* target := getattr_id target_node in
      let* args := getattr_args iter in
      let* arg0 := index args 0 in
      let start := Constant (CNode arg0) in
      let* arg1 := index args 1 in
      let stop := Constant (CNode arg1) in
      let* step :=
        if (2 <? length args)%nat
        then let* arg2 := index args 2 in ret (Some (Constant (CNode arg2)))
        else ret None in
      let init_assign := Assign [Name target Store] (Some start) in
      let loop_condition := Compare (Name target Load) [Lt] [stop] in
      let loop_body :=
        match step with
        | Some step =>
            body ++ [Assign [Name target Store]
                       (Some (BinOp (Name target Load) Add step))]
        | None =>
            body ++ [AugAssign (Name target Store) Add (Constant (CInt 1))]
        end in
      let while_loop := While loop_condition loop_body [] in
      ret (VList [init_assign; while_loop])
  | _ => raise AttributeError
  end.

Definition visit_Return (node : stmt) : M visited :=
  match node with
  | Return value =>
      let* stack := get_scope_stack in
      match last stack with
      | None => ret (VNode node)
      | Some scope =>
          if String.eqb scope "function" then
            let assign_stmt := Assign [Name "_retval" Store] value in
            ret (VList [assign_stmt; Return (Some (Name "_retval" Load))])
          else ret (VNode node)
      end
  | _ => raise AttributeError
  end.

(** ** The rules that go on with [generic_visit], and the dispatch *)

Section Transformer.

(** [self.visit], on a child that is an expression and on one that is a
    statement. *)
Variable self_visit_expr : expr -> M expr.
Variable self_visit : stmt -> M visited.

(** [NodeTransformer.generic_visit], class by class, the fields in the
    order of [_fields]; operators and contexts have no fields. *)
Definition generic_visit_expr (node : expr) : M expr :=
  match node with
  | BinOp left_ op right_ =>
      let* left_ := self_visit_expr left_ in
      let* right_ := self_visit_expr right_ in
      ret (BinOp left_ op right_)
  | UnaryOp op operand =>
      let* operand := self_visit_expr operand in
      ret (UnaryOp op operand)
  | Compare left_ ops comparators =>
      let* left_ := self_visit_expr left_ in
      let* comparators := visit_exprs self_visit_expr comparators in
      ret (Compare left_ ops comparators)
  | Call func args =>
      let* func := self_visit_expr func in
      let* args := visit_exprs self_visit_expr args in
      ret (Call func args)
  | Name id ctx => ret (Name id ctx)
  | Constant (CNode value) =>
      let* value := self_visit_expr value in
      ret (Constant (CNode value))
  | Constant value => ret (Constant value)
  end.

Definition generic_visit (node : stmt) : M visited :=
  match node with
  | FunctionDef name params body =>
      let* body := visit_stmts self_visit body in
      ret (VNode (FunctionDef name params body))
  | If test body orelse =>
      let* test := self_visit_expr test in
      let* body := visit_stmts self_visit body in
      let* orelse := visit_stmts self_visit orelse in
      ret (VNode (If test body orelse))
  | For target iter body orelse =>
      let* target := self_visit_expr target in
      let* iter := self_visit_expr iter in
      let* body := visit_stmts self_visit body in
      let* orelse := visit_stmts self_visit orelse in
      ret (VNode (For target iter body orelse))
  | While test body orelse =>
      let* test := self_visit_expr test in
      let* body := visit_stmts self_visit body in
      let* orelse := visit_stmts self_visit orelse in
      ret (VNode (While test body orelse))
  | Assign targets value =>
      let* targets := visit_exprs self_visit_expr targets in
      let* value := visit_opt self_visit_expr value in
      ret (VNode (Assign targets value))
  | AugAssign target op value =>
      let* target := self_visit_expr target in
      let* value := self_visit_expr value in
      ret (VNode (AugAssign target op value))
  | Return value =>
      let* value := visit_opt self_visit_expr value in
      ret (VNode (Return value))
  | Expr value =>
      let* value := self_visit_expr value in
      ret (VNode (Expr value))
  end.

Definition extra_stmt : stmt :=
  Expr (Call (Name "print" Load)
          [Constant (CStr "This is an additional statement.")]).

(** The class defines [visit_FunctionDef] twice, with the same body. *)
Definition visit_FunctionDef (node : stmt) : M visited :=
  match node with
  | FunctionDef name params body =>
      generic_visit (FunctionDef name params (extra_stmt :: body))
  | _ => raise AttributeError
  end.

Definition visit_Assign (node : stmt) : M visited :=
  match node with
  | Assign targets value =>
      if (1 <? length targets)%nat then
        ret (VList (map (fun target => Assign [target] value) targets))
      else generic_visit node
  | _ => raise AttributeError
  end.

Definition visit_BinOp (node : expr) : M expr :=
  match node with
  | BinOp left_ op right_ =>
      let op := match op with FloorDiv => Div | _ => op end in
      generic_visit_expr (BinOp left_ op right_)
  | _ => raise AttributeError
  end.

Definition visit_UnaryOp (node : expr) : M expr :=
  match node with
  | UnaryOp op operand =>
      let op := match op with Not => Not | _ => op end in
      generic_visit_expr (UnaryOp op operand)
  | _ => raise AttributeError
  end.

Definition visit_Compare (node : expr) : M expr :=
  match node with
  | Compare left_ ops comparators =>
      let* op0 := index ops 0 in
      let ops := match op0 with In => <[0 := Eq]> ops | _ => ops end in
      generic_visit_expr (Compare left_ ops comparators)
  | _ => raise AttributeError
  end.

Definition visit_Call (node : expr) : M expr :=
  match node with
  | Call func args =>
      let* func :=
        match func with
        | Name id ctx =>
            if String.eqb id "len" then
              let* arg0 := index args 0 in
              if isinstance_Str arg0
              then ret (Name "string.len" ctx)
              else ret (Name "table.getn" ctx)
            else ret func
        | _ => ret func
        end in
      generic_visit_expr (Call func args)
  | _ => raise AttributeError
  end.

(** [NodeVisitor.visit]: the method named after the class, or
    [generic_visit]. *)
Definition dispatch_expr (node : expr) : M expr :=
  match node with
  | BinOp _ _ _ => visit_BinOp node
  | UnaryOp _ _ => visit_UnaryOp node
  | Compare _ _ _ => visit_Compare node
  | Call _ _ => visit_Call node
  | Name _ _ | Constant _ => generic_visit_expr node
  end.

Definition dispatch_stmt (node : stmt) : M visited :=
  match node with
  | FunctionDef _ _ _ => visit_FunctionDef node
  | If _ _ _ => visit_If node
  | For _ _ _ _ => visit_For node
  | Assign _ _ => visit_Assign node
  | Return _ => visit_Return node
  | While _ _ _ | AugAssign _ _ _ | Expr _ => generic_visit node
  end.

End Transformer.

(** [self.visit(node)] with [budget] nested calls of [visit] left. *)
Fixpoint visit_expr (budget : nat) (node : expr) : M expr :=
  match budget with
  | O => out_of_budget
  | S budget => dispatch_expr (visit_expr budget) node
  end.

Fixpoint visit (budget : nat) (node : stmt) : M visited :=
  match budget with
  | O => out_of_budget
  | S budget => dispatch_stmt (visit_expr budget) (visit budget) node
  end.

(** [visit] on the root: [Module] has no method of its own. *)
Definition visit_Module (budget : nat) (node : py_mod) : M py_mod :=
  match budget with
  | O => out_of_budget
  | S budget =>
      match node with
      | PyModule body =>
          let* body := visit_stmts (visit budget) body in
          ret (PyModule body)
      end
  end.

(** ** A budget that is enough

    The depth of the calls of [visit] below a node.  [visit_FunctionDef]
    also visits the statement it inserts, three calls deep. *)

Fixpoint depth_expr (node : expr) : nat :=
  match node with
  | BinOp left_ _ right_ => S (max (depth_expr left_) (depth_expr right_))
  | UnaryOp _ operand => S (depth_expr operand)
  | Compare left_ _ comparators =>
      S (max (depth_expr left_)
           (foldr (fun x n => max (depth_expr x) n) 0 comparators))
  | Call func args =>
      S (max (depth_expr func)
           (foldr (fun x n => max (depth_expr x) n) 0 args))
  | Name _ _ => 1
  | Constant (CNode value) => S (depth_expr value)
  | Constant _ => 1
  end.

Definition depth_opt (value : option expr) : nat :=
  match value with Some node => depth_expr node | None => 0 end.

Fixpoint depth (node : stmt) : nat :=
  let depths := foldr (fun x n => max (depth x) n) 0 in
  match node with
  | FunctionDef _ _ body => S (max 3 (depths body))
  | If test body orelse =>
      S (max (depth_expr test) (max (depths body) (depths orelse)))
  | For target iter body orelse =>
      S (max (max (depth_expr target) (depth_expr iter))
           (max (depths body) (depths orelse)))
  | While test body orelse =>
      S (max (depth_expr test) (max (depths body) (depths orelse)))
  | Assign targets value =>
      S (max (foldr (fun x n => max (depth_expr x) n) 0 targets)
           (depth_opt value))
  | AugAssign target _ value => S (max (depth_expr target) (depth_expr value))
  | Return value => S (depth_opt value)
  | Expr value => S (depth_expr value)
  end.

Definition depth_Module (node : py_mod) : nat :=
  match node with
  | PyModule body => S (foldr (fun x n => max (depth x) n) 0 body)
  end.

(** [LuaCompiler().visit(parsed_ast)] *)
Definition transform (parsed_ast : py_mod) : outcome py_mod :=
  visit_Module (depth_Module parsed_ast) parsed_ast init.

(** ** The driver

    [ast.parse] and [astor.to_source] are not part of the program: the
    driver is given them.  Either may raise. *)

Inductive result :=
| Value (compiled_code : option string)
| Uncaught (e : exn)
| NoAnswer.

Section Driver.

Variable parse : string -> exn + py_mod.
Variable to_source : py_mod -> exn + string.

(** [except SyntaxError as e: print(...); return None] *)
Definition handler (e : exn) : result :=
  match e with
  | SyntaxError => Value None
  | _ => Uncaught e
  end.

Definition compile_lua (code : string) : result :=
  match parse code with
  | inl e => handler e
  | inr parsed_ast =>
      match transform parsed_ast with
      | Returns transformed_ast _ =>
          match to_source transformed_ast with
          | inl e => handler e
          | inr compiled_code => Value (Some compiled_code)
          end
      | Raises e => handler e
      | OutOfBudget => NoAnswer
      end
  end.

End Driver.

(** ** Node objects

    A Python node is an object and its fields hold references.  The tree
    model above is exact for a tree, where every node has one owner; the
    multi-target branch of [visit_Assign] is the one place where the
    program stores one reference in several new nodes, so that branch is
    also given over a heap of objects.  A reference is the position of
    the object in the heap; objects are never freed. *)

Module Obj.

Definition ref := nat.

Inductive object :=
| AssignObj (targets : list ref) (value : option ref)
| ExprObj (node : expr).

Abbreviation heap := (list object).

(** [ast.Assign(...)]: a new object *)
Definition new (o : object) (h : heap) : ref * heap :=
  (length h, h ++ [o]).

(** Lines 84-86. *)
Fixpoint assign_stmts (targets : list ref) (value : option ref) (h : heap)
  : list ref * heap :=
  match targets with
  | [] => ([], h)
  | target :: rest =>
      let '(assign_stmt, h) := new (AssignObj [target] value) h in
      let '(stmts, h) := assign_stmts rest value h in
      (assign_stmt :: stmts, h)
  end.

(** Lines 82-87: the branch of [visit_Assign] for [len(node.targets) > 1];
    [None] where the other branch is taken. *)
Definition visit_Assign_split (node : ref) (h : heap)
  : option (list ref * heap) :=
  match h !! node with
  | Some (AssignObj targets value) =>
      if (1 <? length targets)%nat
      then Some (assign_stmts targets value h)
      else None
  | _ => None
  end.

(** The tree below a reference. *)
Definition read_expr (h : heap) (r : ref) : option expr :=
  match h !! r with
  | Some (ExprObj node) => Some node
  | _ => None
  end.

Definition read_value (h : heap) (value : option ref) : option (option expr) :=
  match value with
  | None => Some None
  | Some r => Some <$> read_expr h r
  end.

Definition read_stmt (h : heap) (r : ref) : option stmt :=
  match h !! r with
  | Some (AssignObj targets value) =>
      targets' ← mapM (read_expr h) targets;
      value' ← read_value h value;
      Some (Assign targets' value')
  | _ => None
  end.

End Obj.

(** ** Vocabulary of the statements *)

(** The chain of [If] nodes that an [if]/[elif] ladder is: one node per
    branch, each but the last holding the next one as the only entry of
    its [orelse]. *)
Inductive linear_chain : stmt -> list (expr * list stmt) -> Prop :=
| chain_last test body orelse :
    linear_chain (If test body orelse) [(test, body)]
| chain_link test body next branches :
    linear_chain next branches ->
    linear_chain (If test body [next]) ((test, body) :: branches).

(** The branch that an entry of [orelse] stands for. *)
Definition branch (entry : stmt) : option (expr * list stmt) :=
  match entry with
  | If test body _ | While test body _ => Some (test, body)
  | _ => None
  end.

(** Entries that carry a test and a body, none but the last with an
    [orelse] of its own to keep. *)
Fixpoint chainable (entries : list stmt) : bool :=
  match entries with
  | [] => true
  | entry :: rest =>
      match entry, rest with
      | If _ _ _, [] => true
      | If _ _ [], _ => chainable rest
      | While _ _ _, _ => chainable rest
      | _, _ => false
      end
  end.

(** An outcome that is an answer: a result with the transformer as it
    was, or one of the two exceptions of a failed attribute or index. *)
Definition answers {A} (self : LuaCompiler) (o : outcome A) : Prop :=
  match o with
  | Returns _ self' => self' = self
  | Raises e => e = AttributeError \/ e = IndexError
  | OutOfBudget => False
  end.

(** Running the engine again on its own result. *)
Definition transform_twice (parsed_ast : py_mod) : outcome py_mod :=
  match transform parsed_ast with
  | Returns transformed_ast _ => transform transformed_ast
  | o => o
  end.

(** ** Expressions and statements that the rules leave alone *)

Definition is_FloorDiv (op : operator) : bool :=
  match op with FloorDiv => true | _ => false end.

(** [isinstance(node, ast.Name) and node.id == 'len'] *)
Definition is_Name_len (node : expr) : bool :=
  match node with Name id _ => String.eqb id "len" | _ => false end.

(** No rule has anything to do anywhere in the expression: no floor
    division, no call of the name [len], and every comparison has a first
    operator, which is not [in]. *)
Fixpoint rewritten (node : expr) : bool :=
  match node with
  | BinOp left_ op right_ =>
      negb (is_FloorDiv op) && rewritten left_ && rewritten right_
  | UnaryOp _ operand => rewritten operand
  | Compare left_ ops comparators =>
      match ops with [] | In :: _ => false | _ => true end
      && rewritten left_ && forallb rewritten comparators
  | Call func args =>
      negb (is_Name_len func) && rewritten func && forallb rewritten args
  | Name _ _ => true
  | Constant (CNode value) => rewritten value
  | Constant _ => true
  end.


Definition rewritten_opt (value : option expr) : bool :=
  match value with Some node => rewritten node | None => true end.

(** Statements on which the traversal has nothing to do: no function
    definition and no [for] loop, no assignment to several targets, an
    [if] only without [else] or with one [elif], a [return] of anything,
    and in the expressions that are visited nothing left to rewrite. *)
Fixpoint settled (node : stmt) : bool :=
  match node with
  | FunctionDef _ _ _ => false
  | If _ _ orelse =>
      match orelse with [] | [If _ _ _] => true | _ => false end
  | For _ _ _ _ => false
  | While test body orelse =>
      rewritten test && forallb settled body && forallb settled orelse
  | Assign targets value =>
      (length targets <=? 1)%nat
      && forallb rewritten targets && rewritten_opt value
  | AugAssign target _ value => rewritten target && rewritten value
  | Return _ => true
  | Expr value => rewritten value
  end.


(** ** Sample programs *)

(** [print(i)] *)
Definition print_i : stmt := Expr (Call (Name "print" Load) [Name "i" Load]).

(** [range(1, 5)] *)
Definition range_1_5 : expr :=
  Call (Name "range" Load) [Constant (CInt 1); Constant (CInt 5)].

(** [for i in range(1, 5): <body>] *)
Definition for_i (body : list stmt) : stmt :=
  For (Name "i" Store) range_1_5 body [].

(** [a // b] and [a / b] *)
Definition a_floordiv_b : expr := BinOp (Name "a" Load) FloorDiv (Name "b" Load).
Definition a_div_b : expr := BinOp (Name "a" Load) Div (Name "b" Load).

(** [z = <value>] and [x = y = <value>] *)
Definition z_assign (value : expr) : stmt :=
  Assign [Name "z" Store] (Some value).
Definition x_y_assign (value : expr) : stmt :=
  Assign [Name "x" Store; Name "y" Store] (Some value).

(** [i += 1], as [visit_For] appends it *)
Definition i_increment : stmt :=
  AugAssign (Name "i" Store) Add (Constant (CInt 1)).

(** [while i < <stop>: <body>] *)
Definition while_i (stop : expr) (body : list stmt) : stmt :=
  While (Compare (Name "i" Load) [Lt] [stop]) body [].

(** [def f(): return x] *)
Definition return_x : stmt := Return (Some (Name "x" Load)).
Definition def_f : stmt := FunctionDef "f" [] [return_x].

(** A parser that yields the given tree, and a printer that yields the
    given text, whatever they are handed. *)
Definition parses_to (parsed_ast : py_mod) : string -> exn + py_mod :=
  fun _ => inr parsed_ast.
Definition prints (compiled_code : string) : py_mod -> exn + string :=
  fun _ => inr compiled_code.

(** * Properties *)

(** ** Outcomes *)

Lemma bind_ret {A B} (a : A) (k : A -> M B) : bind (ret a) k = k a.
Proof. reflexivity. Qed.

Lemma bind_raise {A B} e (k : A -> M B) : bind (raise e) k = raise e.
Proof. reflexivity. Qed.

Lemma visit_expr_S budget node :
  visit_expr (S budget) node = dispatch_expr (visit_expr budget) node.
Proof. reflexivity. Qed.

Lemma visit_S budget node :
  visit (S budget) node = dispatch_stmt (visit_expr budget) (visit budget) node.
Proof. reflexivity. Qed.

#[global] Arguments visit_expr : simpl never.
#[global] Arguments visit : simpl never.
#[global] Arguments ret : simpl never.
#[global] Arguments raise : simpl never.
#[global] Arguments bind : simpl never.
#[global] Arguments index : simpl never.
#[global] Arguments answers : simpl never.

Lemma answers_ret {A} (a : A) self : answers self (ret a self).
Proof. reflexivity. Qed.

Lemma answers_raise_attribute {A} self :
  answers self (@raise A AttributeError self).
Proof. now left. Qed.

Lemma answers_raise_index {A} self :
  answers self (@raise A IndexError self).
Proof. now right. Qed.

Lemma answers_bind {A B} (m : M A) (k : A -> M B) self :
  answers self (m self) ->
  (forall a, answers self (k a self)) ->
  answers self (bind m k self).
Proof.
  unfold bind. destruct (m self) as [a self'| |]; simpl; try done.
  intros -> Hk. apply Hk.
Qed.

Lemma answers_index {A} (l : list A) i self : answers self (index l i self).
Proof.
  unfold index. destruct (l !! i); [apply answers_ret | apply answers_raise_index].
Qed.

Lemma answers_get_scope_stack self : answers self (get_scope_stack self).
Proof. reflexivity. Qed.

Create HintDb answers.
#[local] Hint Resolve answers_ret answers_raise_attribute answers_raise_index
  answers_index answers_get_scope_stack : answers.

Ltac answers_steps :=
  repeat first
    [ progress eauto with answers
    | apply answers_bind; [| intros ? ] ].

Lemma visit_exprs_cons visit (x : expr) l :
  visit_exprs visit (x :: l) =
  (let* x' := visit x in let* l' := visit_exprs visit l in ret (x' :: l')).
Proof. reflexivity. Qed.

Lemma visit_stmts_cons visit (x : stmt) l :
  visit_stmts visit (x :: l) =
  (let* x' := visit x in
   let* l' := visit_stmts visit l in ret (splice x' ++ l')).
Proof. reflexivity. Qed.

Lemma answers_visit_exprs visit (l : list expr) self :
  (forall x, x ∈ l -> answers self (visit x self)) ->
  answers self (visit_exprs visit l self).
Proof.
  induction l as [|x l IH]; intros Hl; [apply answers_ret|].
  rewrite visit_exprs_cons.
  apply answers_bind; [apply Hl; left|intros x'].
  apply answers_bind; [|intros; apply answers_ret].
  apply IH. intros y Hy. apply Hl. now right.
Qed.

Lemma answers_visit_stmts visit (l : list stmt) self :
  (forall x, x ∈ l -> answers self (visit x self)) ->
  answers self (visit_stmts visit l self).
Proof.
  induction l as [|x l IH]; intros Hl; [apply answers_ret|].
  rewrite visit_stmts_cons.
  apply answers_bind; [apply Hl; left|intros x'].
  apply answers_bind; [|intros; apply answers_ret].
  apply IH. intros y Hy. apply Hl. now right.
Qed.

Lemma answers_visit_opt visit (value : option expr) self :
  (forall x, value = Some x -> answers self (visit x self)) ->
  answers self (visit_opt visit value self).
Proof.
  destruct value as [x|]; intros Hv; [|apply (answers_ret None)].
  apply answers_bind; [now apply Hv|intros; apply answers_ret].
Qed.

(** ** Depth *)

Lemma depth_expr_pos node : 1 <= depth_expr node.
Proof. destruct node as [| | | | |[]]; simpl; lia. Qed.

Lemma depth_pos node : 1 <= depth node.
Proof. destruct node; simpl; lia. Qed.

Lemma depth_expr_elem (x : expr) (l : list expr) :
  x ∈ l -> depth_expr x <= foldr (fun x n => max (depth_expr x) n) 0 l.
Proof.
  induction 1; simpl; lia.
Qed.

Lemma depth_elem (x : stmt) (l : list stmt) :
  x ∈ l -> depth x <= foldr (fun x n => max (depth x) n) 0 l.
Proof.
  induction 1; simpl; lia.
Qed.

Lemma depth_extra_stmt : depth extra_stmt = 3.
Proof. reflexivity. Qed.

(** ** Every rule answers, and leaves the transformer as it found it *)

Lemma answers_getattr_test node self : answers self (getattr_test node self).
Proof. destruct node; simpl; eauto with answers. Qed.

Lemma answers_getattr_body node self : answers self (getattr_body node self).
Proof. destruct node; simpl; eauto with answers. Qed.

Lemma answers_getattr_orelse node self :
  answers self (getattr_orelse node self).
Proof. destruct node; simpl; eauto with answers. Qed.

Lemma answers_getattr_id node self : answers self (getattr_id node self).
Proof. destruct node; simpl; eauto with answers. Qed.

Lemma answers_getattr_args node self : answers self (getattr_args node self).
Proof. destruct node; simpl; eauto with answers. Qed.

#[local] Hint Resolve answers_getattr_test answers_getattr_body
  answers_getattr_orelse answers_getattr_id answers_getattr_args : answers.

Lemma answers_chain_orelse entries : forall current_if self,
  answers self (chain_orelse current_if entries self).
Proof.
  induction entries as [|orelse rest IH]; intros current_if self; simpl.
  - apply answers_ret.
  - apply answers_bind; [eauto with answers|intros slot].
    destruct (isinstance_If orelse); answers_steps.
Qed.

Lemma answers_visit_If node self : answers self (visit_If node self).
Proof.
  unfold visit_If. apply answers_bind; [eauto with answers|intros orelse].
  destruct (length orelse =? 0)%nat; answers_steps.
  apply answers_chain_orelse.
Qed.

Lemma answers_visit_For node self : answers self (visit_For node self).
Proof.
  destruct node; simpl; eauto with answers.
  answers_steps.
  destruct (2 <? length _)%nat; answers_steps.
Qed.

Lemma answers_visit_Return node self : answers self (visit_Return node self).
Proof.
  destruct node; simpl; eauto with answers.
  apply answers_bind; [eauto with answers|intros stack].
  destruct (last stack) as [scope|]; [|apply answers_ret].
  destruct (String.eqb scope "function"); apply answers_ret.
Qed.

Lemma answers_visit_expr budget : forall node self,
  depth_expr node <= budget -> answers self (visit_expr budget node self).
Proof.
  induction budget as [|budget IH]; intros node self Hd.
  { pose proof (depth_expr_pos node). lia. }
  rewrite visit_expr_S.
  destruct node as [l op r|op e|l ops cs|f args|id ctx|v]; simpl in Hd |- *.
  - apply answers_bind; [apply IH; lia|intros l'].
    apply answers_bind; [apply IH; lia|intros r']. apply answers_ret.
  - apply answers_bind; [apply IH; lia|intros e']. apply answers_ret.
  - apply answers_bind; [apply answers_index|intros op0].
    apply answers_bind; [apply IH; lia|intros l'].
    apply answers_bind; [|intros; apply answers_ret].
    apply answers_visit_exprs. intros x Hx. apply IH.
    apply depth_expr_elem in Hx. lia.
  - assert (Hgo : forall f', depth_expr f' <= depth_expr f ->
              answers self (generic_visit_expr (visit_expr budget)
                              (Call f' args) self)).
    { intros f' Hf'. simpl.
      apply answers_bind; [apply IH; lia|intros f''].
      apply answers_bind; [|intros; apply answers_ret].
      apply answers_visit_exprs. intros x Hx. apply IH.
      apply depth_expr_elem in Hx. lia. }
    destruct f as [| | | |id ctx|]; cbv iota beta;
      try (rewrite bind_ret; now apply Hgo).
    destruct (String.eqb id "len"); [|rewrite bind_ret; now apply Hgo].
    destruct args as [|arg0 rest]; [now right|].
    unfold index; simpl lookup; cbv iota; rewrite bind_ret.
    destruct (isinstance_Str arg0); rewrite bind_ret; now apply Hgo.
  - apply answers_ret.
  - destruct v; try apply answers_ret.
    apply answers_bind; [apply IH; simpl in Hd; lia|intros].
    apply answers_ret.
Qed.

Lemma answers_visit budget : forall node self,
  depth node <= budget -> answers self (visit budget node self).
Proof.
  induction budget as [|budget IH]; intros node self Hd.
  { pose proof (depth_pos node). lia. }
  assert (He : forall e, depth_expr e <= budget ->
            answers self (visit_expr budget e self))
    by (intros; now apply answers_visit_expr).
  assert (Hs : forall l, foldr (fun x n => max (depth x) n) 0 l <= budget ->
            answers self (visit_stmts (visit budget) l self)).
  { intros l Hl. apply answers_visit_stmts. intros x Hx. apply IH.
    apply depth_elem in Hx. lia. }
  assert (Hes : forall l,
            foldr (fun x n => max (depth_expr x) n) 0 l <= budget ->
            answers self (visit_exprs (visit_expr budget) l self)).
  { intros l Hl. apply answers_visit_exprs. intros x Hx. apply He.
    apply depth_expr_elem in Hx. lia. }
  assert (Ho : forall v, depth_opt v <= budget ->
            answers self (visit_opt (visit_expr budget) v self)).
  { intros v Hv. apply answers_visit_opt. intros x ->. now apply He. }
  rewrite visit_S.
  destruct node as [name params body|test body orelse|target iter body orelse
                   |test body orelse|targets value|target op value|value|value];
    simpl in Hd.
  - cbn [dispatch_stmt visit_FunctionDef generic_visit].
    apply answers_bind; [|intros; apply answers_ret].
    rewrite visit_stmts_cons.
    apply answers_bind; [apply IH; rewrite depth_extra_stmt; lia|intros x].
    apply answers_bind; [apply Hs; lia|intros; apply answers_ret].
  - apply answers_visit_If.
  - apply answers_visit_For.
  - simpl. repeat (apply answers_bind; [first [apply He|apply Hs]; lia|intros ?]).
    apply answers_ret.
  - simpl. destruct (1 <? length targets)%nat; [apply answers_ret|].
    simpl. apply answers_bind; [apply Hes; lia|intros ?].
    apply answers_bind; [apply Ho; lia|intros ?]. apply answers_ret.
  - simpl. repeat (apply answers_bind; [apply He; lia|intros ?]).
    apply answers_ret.
  - apply answers_visit_Return.
  - simpl. apply answers_bind; [apply He; lia|intros ?]. apply answers_ret.
Qed.

Lemma answers_visit_Module node self :
  answers self (visit_Module (depth_Module node) node self).
Proof.
  destruct node as [body]. simpl.
  apply answers_bind; [|intros; apply answers_ret].
  apply answers_visit_stmts. intros x Hx. apply answers_visit.
  now apply depth_elem.
Qed.

(** The traversal of a module always comes to an end: with an answer, and
    the scope stack empty as [__init__] made it. *)
Lemma transform_answers parsed_ast : answers init (transform parsed_ast).
Proof. apply answers_visit_Module. Qed.

(** ** The budget does not matter once it is enough *)

Lemma bind_ext {A B} (m m' : M A) (k k' : A -> M B) self :
  m self = m' self ->
  (forall a s, k a s = k' a s) ->
  bind m k self = bind m' k' self.
Proof.
  intros Hm Hk. unfold bind. rewrite Hm.
  destruct (m' self); [apply Hk | reflexivity | reflexivity].
Qed.

Lemma visit_exprs_ext f g (l : list expr) : forall self,
  (forall x s, x ∈ l -> f x s = g x s) ->
  visit_exprs f l self = visit_exprs g l self.
Proof.
  induction l as [|x l IH]; intros self Hl; [reflexivity|].
  rewrite !visit_exprs_cons.
  apply bind_ext; [apply Hl; left|intros x' s].
  apply bind_ext; [|reflexivity].
  apply IH. intros y s' Hy. apply Hl. now right.
Qed.

Lemma visit_stmts_ext f g (l : list stmt) : forall self,
  (forall x s, x ∈ l -> f x s = g x s) ->
  visit_stmts f l self = visit_stmts g l self.
Proof.
  induction l as [|x l IH]; intros self Hl; [reflexivity|].
  rewrite !visit_stmts_cons.
  apply bind_ext; [apply Hl; left|intros x' s].
  apply bind_ext; [|reflexivity].
  apply IH. intros y s' Hy. apply Hl. now right.
Qed.

Lemma visit_opt_ext f g (value : option expr) self :
  (forall x s, value = Some x -> f x s = g x s) ->
  visit_opt f value self = visit_opt g value self.
Proof.
  destruct value as [x|]; intros Hv; [|reflexivity].
  apply bind_ext; [now apply Hv|reflexivity].
Qed.

(** [generic_visit] calls [visit] on the children of the node only. *)
Lemma generic_visit_expr_ext f g node self :
  (forall x s, depth_expr x < depth_expr node -> f x s = g x s) ->
  generic_visit_expr f node self = generic_visit_expr g node self.
Proof.
  intros H.
  assert (Hl : forall l s,
            foldr (fun x n => max (depth_expr x) n) 0 l < depth_expr node ->
            visit_exprs f l s = visit_exprs g l s).
  { intros l s Hd. apply visit_exprs_ext. intros x s' Hx. apply H.
    apply depth_expr_elem in Hx. lia. }
  destruct node as [l op r|op e|l ops cs|func args|id ctx|v];
    cbn [generic_visit_expr]; cbn [depth_expr] in H, Hl.
  - apply bind_ext; [apply H; lia|intros ? ?].
    apply bind_ext; [apply H; lia|reflexivity].
  - apply bind_ext; [apply H; lia|reflexivity].
  - apply bind_ext; [apply H; lia|intros ? ?].
    apply bind_ext; [apply Hl; lia|reflexivity].
  - apply bind_ext; [apply H; lia|intros ? ?].
    apply bind_ext; [apply Hl; lia|reflexivity].
  - reflexivity.
  - destruct v; try reflexivity.
    apply bind_ext; [apply H; lia|reflexivity].
Qed.

Lemma dispatch_expr_ext f g node self :
  (forall x s, depth_expr x < depth_expr node -> f x s = g x s) ->
  dispatch_expr f node self = dispatch_expr g node self.
Proof.
  intros H.
  destruct node as [l op r|op e|l ops cs|func args|id ctx|v];
    cbn [dispatch_expr visit_BinOp visit_UnaryOp visit_Compare visit_Call].
  - now apply generic_visit_expr_ext.
  - now apply generic_visit_expr_ext.
  - apply bind_ext; [reflexivity|intros op0 s].
    apply generic_visit_expr_ext. intros x s'. apply H.
  - destruct func as [| | | |id ctx|];
      try (rewrite !bind_ret; now apply generic_visit_expr_ext).
    destruct (String.eqb id "len");
      [|rewrite !bind_ret; now apply generic_visit_expr_ext].
    destruct args as [|arg0 rest]; [reflexivity|].
    unfold index. cbn [lookup list_lookup]. rewrite !bind_ret.
    destruct (isinstance_Str arg0); rewrite !bind_ret;
      now apply generic_visit_expr_ext.
  - now apply generic_visit_expr_ext.
  - now apply generic_visit_expr_ext.
Qed.

Lemma visit_expr_budget budget : forall budget' node self,
  depth_expr node <= budget -> depth_expr node <= budget' ->
  visit_expr budget node self = visit_expr budget' node self.
Proof.
  induction budget as [|budget IH]; intros budget' node self Hb Hb'.
  { pose proof (depth_expr_pos node). lia. }
  destruct budget' as [|budget']; [pose proof (depth_expr_pos node); lia|].
  rewrite !visit_expr_S. apply dispatch_expr_ext.
  intros x s Hx. apply IH; lia.
Qed.

Lemma generic_visit_ext f g f' g' node self :
  (forall x s, depth_expr x < depth node -> f x s = g x s) ->
  (forall x s, depth x < depth node -> f' x s = g' x s) ->
  generic_visit f f' node self = generic_visit g g' node self.
Proof.
  intros He Hs.
  assert (Hes : forall l s,
            foldr (fun x n => max (depth_expr x) n) 0 l < depth node ->
            visit_exprs f l s = visit_exprs g l s).
  { intros l s Hd. apply visit_exprs_ext. intros x s' Hx. apply He.
    apply depth_expr_elem in Hx. lia. }
  assert (Hss : forall l s,
            foldr (fun x n => max (depth x) n) 0 l < depth node ->
            visit_stmts f' l s = visit_stmts g' l s).
  { intros l s Hd. apply visit_stmts_ext. intros x s' Hx. apply Hs.
    apply depth_elem in Hx. lia. }
  assert (Ho : forall v s, depth_opt v < depth node ->
            visit_opt f v s = visit_opt g v s).
  { intros v s Hd. apply visit_opt_ext. intros x s' ->. now apply He. }
  destruct node; cbn [generic_visit]; cbn [depth] in He, Hs, Hes, Hss, Ho;
    repeat (apply bind_ext;
            [first [apply He|apply Hss|apply Hes|apply Ho]; lia|intros ? ?]);
    reflexivity.
Qed.

Lemma dispatch_stmt_ext f g f' g' node self :
  (forall x s, depth_expr x < depth node -> f x s = g x s) ->
  (forall x s, depth x < depth node -> f' x s = g' x s) ->
  dispatch_stmt f f' node self = dispatch_stmt g g' node self.
Proof.
  intros He Hs.
  destruct node as [name params body| | | |targets value| | |];
    cbn [dispatch_stmt visit_FunctionDef visit_Assign];
    try reflexivity; try now apply generic_visit_ext.
  - apply generic_visit_ext; intros x s Hx; [apply He|apply Hs];
      cbn [depth foldr] in *; rewrite ?depth_extra_stmt in *; lia.
  - destruct (1 <? length targets)%nat; [reflexivity|].
    now apply generic_visit_ext.
Qed.

Lemma visit_budget budget : forall budget' node self,
  depth node <= budget -> depth node <= budget' ->
  visit budget node self = visit budget' node self.
Proof.
  induction budget as [|budget IH]; intros budget' node self Hb Hb'.
  { pose proof (depth_pos node). lia. }
  destruct budget' as [|budget']; [pose proof (depth_pos node); lia|].
  rewrite !visit_S. apply dispatch_stmt_ext.
  - intros x s Hx. apply visit_expr_budget; lia.
  - intros x s Hx. apply IH; lia.
Qed.

(** Any budget that covers the depth of the module gives the outcome of
    [transform]. *)
Lemma visit_Module_budget budget parsed_ast :
  depth_Module parsed_ast <= budget ->
  visit_Module budget parsed_ast init = transform parsed_ast.
Proof.
  intros Hb. unfold transform. destruct parsed_ast as [body].
  destruct budget as [|budget]; [simpl in Hb; lia|].
  cbn [depth_Module visit_Module] in *.
  apply bind_ext; [|reflexivity].
  apply visit_stmts_ext. intros x s Hx. apply depth_elem in Hx.
  apply visit_budget; lia.
Qed.

Lemma compile_lua_answers parse to_source code :
  compile_lua parse to_source code <> NoAnswer.
Proof.
  unfold compile_lua. destruct (parse code) as [e|parsed_ast].
  - now destruct e.
  - pose proof (transform_answers parsed_ast) as Ha.
    destruct (transform parsed_ast) as [node self|e|]; [| |done].
    + destruct (to_source node) as [e|compiled_code]; [now destruct e|done].
    + now destruct e.
Qed.

(** ** [visit_For] *)

(** What the rule returns for a call with two arguments: the bounds are
    wrapped, each in a new [Constant]. *)
Lemma visit_For_two_args id ctx func start stop body orelse self :
  visit_For (For (Name id ctx) (Call func [start; stop]) body orelse) self =
  Returns
    (VList
       [Assign [Name id Store] (Some (Constant (CNode start)));
        While (Compare (Name id Load) [Lt] [Constant (CNode stop)])
          (body ++ [AugAssign (Name id Store) Add (Constant (CInt 1))]) []])
    self.
Proof. reflexivity. Qed.

(** With a third argument the appended statement is an assignment of
    [id + step], the step wrapped in the same way. *)
Lemma visit_For_three_args id ctx func start stop step rest body orelse self :
  visit_For
    (For (Name id ctx) (Call func (start :: stop :: step :: rest)) body orelse)
    self =
  Returns
    (VList
       [Assign [Name id Store] (Some (Constant (CNode start)));
        While (Compare (Name id Load) [Lt] [Constant (CNode stop)])
          (body ++
           [Assign [Name id Store]
              (Some (BinOp (Name id Load) Add (Constant (CNode step))))]) []])
    self.
Proof. reflexivity. Qed.

(** C1.  [for i in range(1, 5): print(i)] is rewritten into an assignment
    and a [while] loop of the stated shape, but the value assigned to [i]
    and the right-hand side of the loop test are not the argument
    expressions [1] and [5] themselves: each is a new [Constant] node whose
    [value] field holds the argument node.  The output that the claim
    describes is not the one produced. *)
Theorem visit_For_wraps_range_arguments :
  visit_For (for_i [print_i]) init =
  Returns
    (VList
       [Assign [Name "i" Store] (Some (Constant (CNode (Constant (CInt 1)))));
        while_i (Constant (CNode (Constant (CInt 5)))) [print_i; i_increment]])
    init
  /\ visit_For (for_i [print_i]) init <>
     Returns
       (VList
          [Assign [Name "i" Store] (Some (Constant (CInt 1)));
           while_i (Constant (CInt 5)) [print_i; i_increment]])
       init.
Proof. split; [reflexivity | discriminate]. Qed.

(** ** [visit_Return] *)

(** C3.  A [Return] that is processed while the innermost frame of the
    scope stack is ["function"] becomes two statements: the assignment of
    its value to [_retval], then [return _retval].  Processed with an
    empty scope stack it is returned as it is. *)
Theorem visit_Return_by_scope budget stack value :
  visit (S budget) (Return value) {| scope_stack := stack ++ ["function"] |} =
  Returns
    (VList [Assign [Name "_retval" Store] value;
            Return (Some (Name "_retval" Load))])
    {| scope_stack := stack ++ ["function"] |}
  /\ visit (S budget) (Return value) {| scope_stack := [] |} =
     Returns (VNode (Return value)) {| scope_stack := [] |}.
Proof.
  split; [|reflexivity].
  rewrite visit_S. cbn [dispatch_stmt visit_Return].
  unfold bind, get_scope_stack. cbn [scope_stack].
  now rewrite last_snoc.
Qed.

(** ** [visit_Call] *)

(** C10.  A call of [len] without arguments: the rule reads [args[0]]
    before anything else and raises [IndexError]; nothing is returned, and
    the driver does not catch the exception. *)
Theorem visit_Call_len_without_arguments budget ctx self to_source code rest :
  visit_expr (S budget) (Call (Name "len" ctx) []) self = Raises IndexError
  /\ compile_lua
       (parses_to (PyModule (Expr (Call (Name "len" ctx) []) :: rest)))
       to_source code = Uncaught IndexError.
Proof.
  split; [reflexivity|].
  unfold compile_lua, parses_to, transform.
  cbn [depth_Module visit_Module].
  rewrite visit_stmts_cons. cbn [foldr].
  set (d := foldr _ 0 rest).
  assert (Hv : forall n self, visit (S (S n)) (Expr (Call (Name "len" ctx) [])) self
               = Raises IndexError) by reflexivity.
  destruct (Nat.max (depth (Expr (Call (Name "len" ctx) []))) d) as [|[|n]] eqn:E;
    [simpl in E; lia | simpl in E; lia |].
  unfold bind at 1. unfold bind at 1. now rewrite Hv.
Qed.

Lemma visit_expr_Name budget id ctx self :
  visit_expr (S budget) (Name id ctx) self = Returns (Name id ctx) self.
Proof. reflexivity. Qed.

Lemma visit_expr_Str budget s self :
  visit_expr (S budget) (Constant (CStr s)) self =
  Returns (Constant (CStr s)) self.
Proof. reflexivity. Qed.

(** C9.  A call whose callee is the name [len]: the rule renames the
    callee, to [string.len] when the first argument is a string literal
    and to [table.getn] when it is any other node, and goes on with
    [generic_visit] on the renamed call.  In the traversal the result is
    the call with the new callee and its arguments visited; a call
    [len("...")] is returned outright.  A call whose callee is another
    name gets no rewrite from the rule: it is handed to [generic_visit]
    with the callee it has, and keeps it. *)
Theorem visit_Call_len self_visit budget ctx id arg0 rest args s self :
  visit_Call self_visit (Call (Name "len" ctx) (arg0 :: rest)) self =
  generic_visit_expr self_visit
    (Call (Name (if isinstance_Str arg0 then "string.len" else "table.getn")
             ctx) (arg0 :: rest)) self
  /\ visit_expr (S (S budget)) (Call (Name "len" ctx) (arg0 :: rest)) self =
     (let* args := visit_exprs (visit_expr (S budget)) (arg0 :: rest) in
      ret (Call (Name (if isinstance_Str arg0
                       then "string.len" else "table.getn") ctx) args)) self
  /\ visit_expr (S (S budget)) (Call (Name "len" ctx) [Constant (CStr s)]) self =
     Returns (Call (Name "string.len" ctx) [Constant (CStr s)]) self
  /\ (id <> "len" ->
      visit_Call self_visit (Call (Name id ctx) args) self =
      generic_visit_expr self_visit (Call (Name id ctx) args) self
      /\ visit_expr (S (S budget)) (Call (Name id ctx) args) self =
         (let* args := visit_exprs (visit_expr (S budget)) args in
          ret (Call (Name id ctx) args)) self).
Proof.
  assert (Hlen : forall visit,
            visit_Call visit (Call (Name "len" ctx) (arg0 :: rest)) self =
            generic_visit_expr visit
              (Call (Name (if isinstance_Str arg0
                           then "string.len" else "table.getn") ctx)
                 (arg0 :: rest)) self).
  { intros visit. cbn [visit_Call]. rewrite String.eqb_refl.
    unfold index. cbn [lookup list_lookup]. rewrite bind_ret.
    now destruct (isinstance_Str arg0). }
  split; [apply Hlen|]. split; [|split].
  - rewrite visit_expr_S. cbn [dispatch_expr]. rewrite Hlen.
    now destruct (isinstance_Str arg0).
  - reflexivity.
  - intros Hid. apply String.eqb_neq in Hid.
    assert (Hrule : forall visit,
              visit_Call visit (Call (Name id ctx) args) self =
              generic_visit_expr visit (Call (Name id ctx) args) self).
    { intros visit. cbn [visit_Call]. now rewrite Hid. }
    split; [apply Hrule|].
    rewrite visit_expr_S. cbn [dispatch_expr]. now rewrite Hrule.
Qed.

Lemma visit_Call_len_witness :
  "print" <> "len"
  /\ visit_expr 3 (Call (Name "print" Load) [Name "i" Load]) init =
  Returns (Call (Name "print" Load) [Name "i" Load]) init.
Proof.
  split; [discriminate|].
  destruct (visit_Call_len (visit_expr 0) 1 Load "print"
              (Name "i" Load) [] [Name "i" Load] "" init)
    as (_ & _ & _ & H).
  destruct H as [_ H]; [discriminate|]. exact H.
Defined.

(** ** The scope stack *)

Lemma visit_extra_stmt budget self :
  visit (S (S (S budget))) extra_stmt self = Returns (VNode extra_stmt) self.
Proof. reflexivity. Qed.

(** C4.  No frame is pushed when the body of a function is entered: the
    [Return] of [def f(...): return value] is handed to [visit_Return]
    with the transformer as it was when the [FunctionDef] was reached.
    From [__init__] that is the empty stack, so [def f(): return x] keeps
    its [return x], which [visit_Return] would have expanded under a
    ["function"] frame. *)
Theorem scope_stack_never_pushed budget name params value self :
  visit (S (S (S (S budget)))) (FunctionDef name params [Return value]) self =
  (let* stmts := visit_Return (Return value) in
   ret (VNode (FunctionDef name params (extra_stmt :: splice stmts)))) self
  /\ transform (PyModule [def_f]) =
     Returns (PyModule [FunctionDef "f" [] [extra_stmt; return_x]]) init
  /\ visit_Return return_x {| scope_stack := ["function"] |} =
     Returns
       (VList [Assign [Name "_retval" Store] (Some (Name "x" Load));
               Return (Some (Name "_retval" Load))])
       {| scope_stack := ["function"] |}.
Proof.
  split; [|split; reflexivity].
  rewrite visit_S. cbn [dispatch_stmt visit_FunctionDef generic_visit].
  rewrite !visit_stmts_cons.
  unfold bind at 1 2. rewrite visit_extra_stmt.
  rewrite (visit_S _ (Return value)). cbn [dispatch_stmt].
  unfold bind. destruct (visit_Return (Return value) self); try reflexivity.
  cbn. unfold ret. now rewrite app_nil_r.
Qed.

(** ** Expansions are not walked *)

(** C7.  The statements of a [for] body are put into the [while] loop as
    they are, [z = a // b] keeping its floor division, although the same
    statement at the top of a module is rewritten to [z = a / b]; the
    statements that [x = y = a // b] expands to are not walked either. *)
Theorem expansion_is_not_walked :
  transform (PyModule [for_i [z_assign a_floordiv_b]]) =
  Returns
    (PyModule
       [Assign [Name "i" Store] (Some (Constant (CNode (Constant (CInt 1)))));
        while_i (Constant (CNode (Constant (CInt 5))))
          [z_assign a_floordiv_b; i_increment]])
    init
  /\ transform (PyModule [z_assign a_floordiv_b]) =
     Returns (PyModule [z_assign a_div_b]) init
  /\ transform (PyModule [x_y_assign a_floordiv_b]) =
     Returns
       (PyModule [Assign [Name "x" Store] (Some a_floordiv_b);
                  Assign [Name "y" Store] (Some a_floordiv_b)])
       init.
Proof. repeat split; reflexivity. Qed.

(** C8.  A second run is not a no-op.  After one run [x = y = a // b] is
    the two assignments of [a // b]; the second run turns both into
    assignments of [a / b].  After one run the loop over [z = a // b] is
    the assignment and the [while] loop with the body untouched; the
    second run rewrites the body. *)
Theorem second_run_rewrites_again :
  transform (PyModule [x_y_assign a_floordiv_b]) =
  Returns
    (PyModule [Assign [Name "x" Store] (Some a_floordiv_b);
               Assign [Name "y" Store] (Some a_floordiv_b)])
    init
  /\ transform_twice (PyModule [x_y_assign a_floordiv_b]) =
     Returns
       (PyModule [Assign [Name "x" Store] (Some a_div_b);
                  Assign [Name "y" Store] (Some a_div_b)])
       init
  /\ transform_twice (PyModule [for_i [z_assign a_floordiv_b]]) =
     Returns
       (PyModule
          [Assign [Name "i" Store]
             (Some (Constant (CNode (Constant (CInt 1)))));
           while_i (Constant (CNode (Constant (CInt 5))))
             [z_assign a_div_b; i_increment]])
       init
  /\ transform_twice (PyModule [for_i [z_assign a_floordiv_b]]) <>
     transform (PyModule [for_i [z_assign a_floordiv_b]]).
Proof. repeat split; try reflexivity. discriminate. Qed.

(** ** The driver and what it catches *)

Lemma transform_first_raises first rest e :
  (forall budget self, visit (S budget) first self = Raises e) ->
  transform (PyModule (first :: rest)) = Raises e.
Proof.
  intros Hfirst. unfold transform. cbn [depth_Module visit_Module foldr].
  pose proof (depth_pos first) as Hpos.
  destruct (Nat.max (depth first) _) as [|budget] eqn:E; [lia|].
  rewrite visit_stmts_cons. unfold bind at 1 2. now rewrite Hfirst.
Qed.

Lemma visit_For_iter_not_Call id ctx iter body orelse self :
  (forall func args, iter <> Call func args) ->
  visit_For (For (Name id ctx) iter body orelse) self = Raises AttributeError.
Proof.
  intros Hiter. destruct iter; try reflexivity. now destruct (Hiter iter args).
Qed.

Lemma visit_For_short_args id ctx func args body orelse self :
  length args < 2 ->
  visit_For (For (Name id ctx) (Call func args) body orelse) self =
  Raises IndexError.
Proof.
  intros Hargs. destruct args as [|arg0 [|arg1 args]]; try reflexivity.
  simpl in Hargs. lia.
Qed.

(** C6, as the code has it.  The driver turns a [SyntaxError] into the
    answer [None] and catches nothing else: whatever exception the
    traversal raises leaves [compile_lua].  A [for] whose iterable is not
    a call raises [AttributeError]; one whose iterable is a call with
    fewer than two arguments raises [IndexError]. *)
Theorem compile_lua_catches_SyntaxError_only parse to_source code :
  (parse code = inl SyntaxError ->
   compile_lua parse to_source code = Value None)
  /\ (forall parsed_ast e,
        parse code = inr parsed_ast ->
        transform parsed_ast = Raises e ->
        compile_lua parse to_source code = Uncaught e)
  /\ (forall id ctx iter body orelse rest,
        (forall func args, iter <> Call func args) ->
        parse code = inr (PyModule (For (Name id ctx) iter body orelse :: rest)) ->
        compile_lua parse to_source code = Uncaught AttributeError)
  /\ (forall id ctx func args body orelse rest,
        length args < 2 ->
        parse code =
          inr (PyModule (For (Name id ctx) (Call func args) body orelse :: rest)) ->
        compile_lua parse to_source code = Uncaught IndexError).
Proof.
  unfold compile_lua. repeat split.
  - now intros ->.
  - intros parsed_ast e -> He.
    pose proof (transform_answers parsed_ast) as Ha. rewrite He in *.
    now destruct Ha as [-> | ->].
  - intros id ctx iter body orelse rest Hiter ->.
    rewrite (transform_first_raises _ _ AttributeError); [done|].
    intros budget self. rewrite visit_S. now apply visit_For_iter_not_Call.
  - intros id ctx func args body orelse rest Hargs ->.
    rewrite (transform_first_raises _ _ IndexError); [done|].
    intros budget self. rewrite visit_S. now apply visit_For_short_args.
Qed.

Lemma compile_lua_catches_SyntaxError_only_witness :
  compile_lua (fun _ => inl SyntaxError) (prints "") "for" = Value None
  /\ compile_lua
       (parses_to (PyModule [For (Name "x" Store) (Name "xs" Load) [print_i] []]))
       (prints "") "for x in xs: print(i)" = Uncaught AttributeError
  /\ compile_lua
       (parses_to
          (PyModule [For (Name "i" Store)
                       (Call (Name "range" Load) [Constant (CInt 5)])
                       [print_i] []]))
       (prints "") "for i in range(5): print(i)" = Uncaught IndexError.
Proof.
  split; [|split].
  - apply (compile_lua_catches_SyntaxError_only
             (fun _ => inl SyntaxError) (prints "") "for"). reflexivity.
  - eapply (compile_lua_catches_SyntaxError_only
              (parses_to _) (prints "") "for x in xs: print(i)");
      [|reflexivity]. discriminate.
  - eapply (compile_lua_catches_SyntaxError_only
              (parses_to _) (prints "") "for i in range(5): print(i)");
      [|reflexivity]. simpl. lia.
Defined.

(** C6, as stated, fails: for a [for] over a name, and for the loop over
    [range(5)], the exception leaves the entry point; no error value is
    returned. *)
Lemma compile_lua_lets_exceptions_escape :
  compile_lua
    (parses_to (PyModule [For (Name "x" Store) (Name "xs" Load) [print_i] []]))
    (prints "") "for x in xs: print(i)" = Uncaught AttributeError
  /\ compile_lua
       (parses_to
          (PyModule [For (Name "i" Store)
                       (Call (Name "range" Load) [Constant (CInt 5)])
                       [print_i] []]))
       (prints "") "for i in range(5): print(i)" = Uncaught IndexError
  /\ ~ (exists compiled_code,
          compile_lua
            (parses_to
               (PyModule [For (Name "x" Store) (Name "xs" Load) [print_i] []]))
            (prints "") "for x in xs: print(i)" = Value compiled_code).
Proof.
  split; [reflexivity|split; [reflexivity|]].
  intros [compiled_code H]. discriminate H.
Qed.

(** ** [visit_Assign] *)

(** The objects that the loop of lines 84-86 adds: one [Assign] for each
    target, at the end of the heap, and nothing else. *)
Lemma assign_stmts_spec targets : forall value (h : Obj.heap),
  Obj.assign_stmts targets value h =
  (seq (length h) (length targets),
   h ++ map (fun target => Obj.AssignObj [target] value) targets).
Proof.
  induction targets as [|target rest IH]; intros value h; simpl.
  - now rewrite app_nil_r.
  - rewrite IH, length_app, <- app_assoc. simpl.
    now replace (length h + 1) with (S (length h)) by lia.
Qed.

Lemma read_expr_app (h h' : Obj.heap) r node :
  Obj.read_expr h r = Some node -> Obj.read_expr (h ++ h') r = Some node.
Proof.
  unfold Obj.read_expr. destruct (h !! r) as [o|] eqn:E; [|done].
  now rewrite (lookup_app_l_Some _ _ _ _ E).
Qed.

Lemma read_exprs_app (h h' : Obj.heap) rs : forall nodes,
  mapM (Obj.read_expr h) rs = Some nodes ->
  mapM (Obj.read_expr (h ++ h')) rs = Some nodes.
Proof.
  intros nodes. rewrite !mapM_Some. intros H.
  induction H; constructor; auto using read_expr_app.
Qed.

Lemma read_value_app (h h' : Obj.heap) value v :
  Obj.read_value h value = Some v -> Obj.read_value (h ++ h') value = Some v.
Proof.
  destruct value as [r|]; simpl; [|done].
  destruct (Obj.read_expr h r) as [node|] eqn:E; [|done].
  now rewrite (read_expr_app _ h' _ _ E).
Qed.

(** Reading the new objects as trees gives what the tree model gives. *)
Lemma read_assign_stmts (h : Obj.heap) value v targets : forall pre nodes,
  Obj.read_value h value = Some v ->
  mapM (Obj.read_expr h) targets = Some nodes ->
  mapM (Obj.read_stmt
          (h ++ pre ++ map (fun target => Obj.AssignObj [target] value) targets))
    (seq (length h + length pre) (length targets)) =
  Some (map (fun target => Assign [target] v) nodes).
Proof.
  induction targets as [|target rest IH]; intros pre nodes Hv Hts.
  - apply mapM_Some in Hts. inversion Hts. reflexivity.
  - apply mapM_Some in Hts. inversion Hts as [|? node ? nodes' Ht Hrest]; subst.
    apply mapM_Some in Hrest.
    apply mapM_Some. cbn [length seq map]. constructor.
    + unfold Obj.read_stmt.
      rewrite lookup_app_r by lia.
      replace (length h + length pre - length h) with (length pre) by lia.
      rewrite lookup_app_r by lia. rewrite Nat.sub_diag. cbn [lookup list_lookup].
      cbn [mapM]. rewrite (read_expr_app _ _ _ _ Ht). cbn.
      now rewrite (read_value_app _ _ _ _ Hv).
    + specialize (IH (pre ++ [Obj.AssignObj [target] value]) nodes' Hv Hrest).
      rewrite length_app in IH. cbn [length] in IH.
      replace (length h + (length pre + 1)) with (S (length h + length pre))
        in IH by lia.
      rewrite <- app_assoc in IH. cbn [app] in IH.
      now apply mapM_Some.
Qed.

(** On the heap: the [k] new [Assign] objects are the only new objects,
    the [i]-th holds the [i]-th target and, in its [value] field, the
    reference that the [value] field of the visited node holds. *)
Lemma visit_Assign_split_shares_value (h : Obj.heap) node targets value :
  h !! node = Some (Obj.AssignObj targets value) ->
  1 < length targets ->
  exists stmts (h' : Obj.heap),
    Obj.visit_Assign_split node h = Some (stmts, h')
    /\ length stmts = length targets
    /\ NoDup stmts
    /\ (forall i r, stmts !! i = Some r ->
          h !! r = None /\
          exists target, targets !! i = Some target /\
                         h' !! r = Some (Obj.AssignObj [target] value))
    /\ (forall r o, h !! r = Some o -> h' !! r = Some o)
    /\ length h' = length h + length targets
    /\ (forall nodes v,
          mapM (Obj.read_expr h) targets = Some nodes ->
          Obj.read_value h value = Some v ->
          mapM (Obj.read_stmt h') stmts =
          Some (map (fun target => Assign [target] v) nodes)).
Proof.
  intros Hnode Hk. unfold Obj.visit_Assign_split. rewrite Hnode.
  apply Nat.ltb_lt in Hk as ->. rewrite assign_stmts_spec.
  eexists _, _. split; [reflexivity|].
  split; [apply length_seq|]. split; [apply NoDup_seq|].
  split; [|split; [|split]].
  - intros i r Hr. apply lookup_seq in Hr as [-> Hi].
    split; [apply lookup_ge_None; lia|].
    destruct (lookup_lt_is_Some_2 targets i Hi) as [target Ht].
    exists target. split; [done|].
    rewrite lookup_app_r by lia.
    replace (length h + i - length h) with i by lia.
    now rewrite list_lookup_fmap, Ht.
  - intros r o Hr. now apply lookup_app_l_Some.
  - now rewrite length_app, length_map.
  - intros nodes v Hts Hv.
    pose proof (read_assign_stmts h value v targets [] nodes Hv Hts) as H.
    cbn [length app] in H. now rewrite Nat.add_0_r in H.
Qed.

(** C5.  An [Assign] with [k > 1] targets is rewritten into [k]
    statements, one for each target in the order of the targets, each an
    [Assign] of that one target whose [value] is the [value] of the
    visited node; as objects, the [value] fields of the new nodes all hold
    the one reference that the visited node held, and no object but the
    [k] nodes is created.  An [Assign] with one target is not rewritten by
    the rule: it is handed to [generic_visit], which keeps it as the one
    single-target [Assign], its target and value visited. *)
Theorem visit_Assign_by_targets
    self_visit_expr self_visit budget targets value target self
    (h : Obj.heap) node rtargets rvalue :
  (1 < length targets ->
   visit (S budget) (Assign targets value) self =
   Returns (VList (map (fun target => Assign [target] value) targets)) self)
  /\ (h !! node = Some (Obj.AssignObj rtargets rvalue) ->
      1 < length rtargets ->
      exists stmts (h' : Obj.heap),
        Obj.visit_Assign_split node h = Some (stmts, h')
        /\ length stmts = length rtargets
        /\ NoDup stmts
        /\ (forall i r, stmts !! i = Some r ->
              h !! r = None /\
              exists rtarget, rtargets !! i = Some rtarget /\
                              h' !! r = Some (Obj.AssignObj [rtarget] rvalue))
        /\ (forall r o, h !! r = Some o -> h' !! r = Some o)
        /\ length h' = length h + length rtargets
        /\ (forall nodes v,
              mapM (Obj.read_expr h) rtargets = Some nodes ->
              Obj.read_value h rvalue = Some v ->
              mapM (Obj.read_stmt h') stmts =
              Some (map (fun target => Assign [target] v) nodes)))
  /\ visit_Assign self_visit_expr self_visit (Assign [target] value) self =
     generic_visit self_visit_expr self_visit (Assign [target] value) self
  /\ visit (S budget) (Assign [target] value) self =
     (let* target := visit_expr budget target in
      let* value := visit_opt (visit_expr budget) value in
      ret (VNode (Assign [target] value))) self.
Proof.
  split; [|split; [|split]].
  - intros Hk. rewrite visit_S. cbn [dispatch_stmt visit_Assign].
    now apply Nat.ltb_lt in Hk as ->.
  - apply visit_Assign_split_shares_value.
  - reflexivity.
  - rewrite visit_S. cbn [dispatch_stmt visit_Assign length Nat.ltb Nat.leb].
    cbn [generic_visit]. rewrite visit_exprs_cons.
    unfold bind. destruct (visit_expr budget target self); reflexivity.
Qed.

(** [x = y = a // b], with the node at reference 3 of a heap that holds
    the names [x] and [y] and the value [a // b] at 0, 1 and 2. *)
Lemma visit_Assign_by_targets_witness :
  visit 1 (x_y_assign a_floordiv_b) init =
  Returns
    (VList [Assign [Name "x" Store] (Some a_floordiv_b);
            Assign [Name "y" Store] (Some a_floordiv_b)])
    init
  /\ exists stmts (h' : Obj.heap),
       Obj.visit_Assign_split 3
         [Obj.ExprObj (Name "x" Store); Obj.ExprObj (Name "y" Store);
          Obj.ExprObj a_floordiv_b; Obj.AssignObj [0; 1] (Some 2)] =
       Some (stmts, h')
       /\ length stmts = 2.
Proof.
  pose proof (visit_Assign_by_targets (visit_expr 0) (visit 0) 0
                [Name "x" Store; Name "y" Store] (Some a_floordiv_b)
                (Name "z" Store) init
                [Obj.ExprObj (Name "x" Store); Obj.ExprObj (Name "y" Store);
                 Obj.ExprObj a_floordiv_b; Obj.AssignObj [0; 1] (Some 2)]
                3 [0; 1] (Some 2)) as (Htree & Hobj & _).
  split.
  - apply Htree. simpl. lia.
  - destruct Hobj as (stmts & h' & Hsplit & Hlen & _);
      [reflexivity | simpl; lia |].
    exists stmts, h'. split; [exact Hsplit | exact Hlen].
Defined.

(** ** [visit_If] *)

Lemma chainable_cons entry rest :
  chainable (entry :: rest) = true ->
  exists test body orelse,
    branch entry = Some (test, body)
    /\ chainable rest = true
    /\ ((entry = If test body orelse /\ (rest <> [] -> orelse = []))
        \/ entry = While test body orelse).
Proof.
  destruct entry as [| test body orelse | | test body orelse | | | |];
    try (destruct rest; discriminate).
  - intros H. exists test, body, orelse. split; [reflexivity|].
    destruct rest as [|entry' rest]; [split; [reflexivity|left; done]|].
    destruct orelse; [|discriminate].
    split; [exact H|left; done].
  - intros H. exists test, body, orelse. split; [reflexivity|].
    split; [|now right]. now destruct rest.
Qed.

(** The loop of [visit_If] on entries that carry a test and a body: what
    was [current_if] becomes the head of a chain with one more node for
    each entry. *)
Lemma chain_orelse_linear entries : forall test body orelse self,
  chainable entries = true ->
  (entries <> [] -> orelse = []) ->
  exists branches chain,
    mapM branch entries = Some branches
    /\ chain_orelse (If test body orelse) entries self = Returns chain self
    /\ linear_chain chain ((test, body) :: branches).
Proof.
  induction entries as [|entry rest IH]; intros test body orelse self Hc Ho.
  - exists [], (If test body orelse). repeat split. constructor.
  - rewrite Ho by done.
    apply chainable_cons in Hc
      as (test1 & body1 & orelse1 & Hb & Hrest & [[-> Ho1] | ->]).
    + destruct (IH test1 body1 orelse1 self Hrest Ho1)
        as (branches & next & Hbs & Hnext & Hlin).
      exists ((test1, body1) :: branches), (If test body [next]).
      split; [|split].
      * cbn [mapM]. rewrite Hb, Hbs. reflexivity.
      * cbn [chain_orelse getattr_orelse isinstance_If].
        rewrite bind_ret. unfold bind. rewrite Hnext. reflexivity.
      * now constructor.
    + destruct (IH test1 body1 [] self Hrest (fun _ => eq_refl))
        as (branches & next & Hbs & Hnext & Hlin).
      exists ((test1, body1) :: branches), (If test body [next]).
      split; [|split].
      * cbn [mapM]. rewrite Hb, Hbs. reflexivity.
      * cbn [chain_orelse getattr_orelse isinstance_If getattr_test
               getattr_body].
        rewrite !bind_ret. cbn [app]. unfold index. cbn [lookup list_lookup].
        rewrite bind_ret. unfold bind. rewrite Hnext. reflexivity.
      * now constructor.
Qed.

(** C2, as the code has it.  An [If] whose [orelse] is empty is returned
    as it is.  When every entry of [orelse] carries a test and a body (it
    is an [If], or a [While]) and none but the last has an [orelse] of its
    own, the rule returns a chain of [If] nodes, the first with the test
    and body of the visited node and one more for each entry, with the
    test and body of that entry, in order; each but the last holds the
    next as the only entry of its [orelse]. *)
Theorem visit_If_chain budget test body entries self :
  visit (S budget) (If test body []) self = Returns (VNode (If test body [])) self
  /\ (entries <> [] ->
      chainable entries = true ->
      exists branches chain,
        mapM branch entries = Some branches
        /\ visit (S budget) (If test body entries) self =
           Returns (VNode chain) self
        /\ linear_chain chain ((test, body) :: branches)).
Proof.
  split; [reflexivity|].
  intros Hne Hc.
  destruct (chain_orelse_linear entries test body [] self Hc (fun _ => eq_refl))
    as (branches & chain & Hbs & Hchain & Hlin).
  exists branches, chain. split; [done|]. split; [|done].
  rewrite visit_S. cbn [dispatch_stmt]. unfold visit_If.
  cbn [getattr_orelse getattr_test getattr_body]. rewrite bind_ret.
  destruct entries as [|entry rest]; [done|].
  cbn [length Nat.eqb]. rewrite !bind_ret.
  unfold bind. rewrite Hchain. reflexivity.
Qed.

(** [if a: print(i) elif b: z = a / b else: print(i)], the [elif] being,
    as the parser gives it, the one entry of [orelse]. *)
Lemma visit_If_chain_witness :
  exists branches chain,
    mapM branch [If (Name "b" Load) [z_assign a_div_b] [print_i]] =
    Some branches
    /\ visit 1
         (If (Name "a" Load) [print_i]
            [If (Name "b" Load) [z_assign a_div_b] [print_i]]) init =
       Returns (VNode chain) init
    /\ linear_chain chain ((Name "a" Load, [print_i]) :: branches).
Proof.
  apply (visit_If_chain 0 (Name "a" Load) [print_i]
           [If (Name "b" Load) [z_assign a_div_b] [print_i]] init);
    [discriminate | reflexivity].
Defined.

(** C2, as stated, fails.  With a plain [else] the entry of [orelse] is a
    statement without a test: the rule raises [AttributeError] and
    returns no chain.  With two [If] entries, the first with an [orelse]
    of its own, the second is appended to that [orelse], which then has
    two entries. *)
Lemma visit_If_without_chain :
  visit_If (If (Name "a" Load) [print_i] [z_assign a_div_b]) init =
  Raises AttributeError
  /\ visit_If
       (If (Name "a" Load) [print_i]
          [If (Name "b" Load) [] [print_i]; If (Name "c" Load) [] []]) init =
     Returns
       (VNode
          (If (Name "a" Load) [print_i]
             [If (Name "b" Load) [] [print_i; If (Name "c" Load) [] []]]))
       init
  /\ ~ (exists chain,
          visit_If (If (Name "a" Load) [print_i] [z_assign a_div_b]) init =
          Returns (VNode chain) init).
Proof.
  split; [reflexivity|split; [reflexivity|]].
  intros [chain H]. discriminate H.
Qed.

(** * More of the program *)

(** ** What a returned outcome tells *)

Lemma bind_Returns {A B} (m : M A) (k : A -> M B) self b self' :
  bind m k self = Returns b self' ->
  exists a s, m self = Returns a s /\ k a s = Returns b self'.
Proof.
  unfold bind. destruct (m self) as [a s| |]; try discriminate.
  intros H. now exists a, s.
Qed.

Lemma ret_Returns {A} (a b : A) self self' :
  ret a self = Returns b self' -> a = b /\ self = self'.
Proof. unfold ret. now intros [= -> ->]. Qed.

Lemma index_Returns {A} (l : list A) i a self self' :
  index l i self = Returns a self' -> l !! i = Some a /\ self = self'.
Proof.
  unfold index. destruct (l !! i); [|discriminate].
  now intros [-> ->]%ret_Returns.
Qed.

Lemma visit_exprs_Returns (R : expr -> expr -> Prop) visit l :
  forall self l' self',
  (forall x s x' s', x ∈ l -> visit x s = Returns x' s' -> R x x') ->
  visit_exprs visit l self = Returns l' self' ->
  Forall2 R l l'.
Proof.
  induction l as [|x l IH]; intros self l' self' HR H.
  - apply ret_Returns in H as [<- _]. constructor.
  - rewrite visit_exprs_cons in H.
    apply bind_Returns in H as (x' & s1 & Hx & H).
    apply bind_Returns in H as (l1 & s2 & Hl & H).
    apply ret_Returns in H as [<- _]. constructor.
    + eapply HR; [left|exact Hx].
    + eapply IH; [|exact Hl]. intros y s y' s' Hy. apply HR. now right.
Qed.

Lemma visit_stmts_Returns (R : stmt -> visited -> Prop) visit l :
  forall self l' self',
  (forall x s v s', x ∈ l -> visit x s = Returns v s' -> R x v) ->
  visit_stmts visit l self = Returns l' self' ->
  exists vs, Forall2 R l vs /\ l' = concat (map splice vs).
Proof.
  induction l as [|x l IH]; intros self l' self' HR H.
  - apply ret_Returns in H as [<- _]. exists []. split; [constructor|done].
  - rewrite visit_stmts_cons in H.
    apply bind_Returns in H as (v & s1 & Hx & H).
    apply bind_Returns in H as (l1 & s2 & Hl & H).
    apply ret_Returns in H as [<- _].
    destruct (IH s1 l1 s2) as (vs & Hvs & ->); [|exact Hl|].
    { intros y s w s' Hy. apply HR. now right. }
    exists (v :: vs). split; [|done]. constructor; [|done].
    eapply HR; [left|exact Hx].
Qed.

Ltac returned H :=
  repeat
    (let a := fresh "a" in
     let s := fresh "s" in
     let Ha := fresh "Ha" in
     apply bind_Returns in H as (a & s & Ha & H));
  try (apply ret_Returns in H as [<- <-]).

(** ** Expressions: what the traversal leaves behind *)

Lemma foldr_max_le (f : expr -> nat) (l : list expr) n :
  Forall (fun x => f x <= n) l -> foldr (fun x m => max (f x) m) 0 l <= n.
Proof. induction 1; simpl; lia. Qed.

Lemma Forall_forallb (f : expr -> bool) (l : list expr) :
  Forall (fun x => f x = true) l -> forallb f l = true.
Proof. induction 1; simpl; [done|]. now rewrite H, IHForall. Qed.

Lemma forallb_elem (f : expr -> bool) (l : list expr) x :
  forallb f l = true -> x ∈ l -> f x = true.
Proof.
  intros Hall Hx. induction Hx; simpl in Hall;
    apply andb_true_iff in Hall as [? ?]; auto.
Qed.

(** The visit of a node returns a node of the same class; in particular a
    callee that is the name [len] after its visit was so before. *)
Lemma visit_expr_is_Name_len budget node self node' self' :
  visit_expr budget node self = Returns node' self' ->
  is_Name_len node' = true -> is_Name_len node = true.
Proof.
  destruct budget as [|budget]; [discriminate|].
  rewrite visit_expr_S.
  destruct node as [l op r|op e|l ops cs|func args|id ctx|v];
    cbn [dispatch_expr visit_BinOp visit_UnaryOp visit_Compare visit_Call
         generic_visit_expr]; intros H; try (returned H; done).
  destruct v; returned H; done.
Qed.

Lemma visit_expr_returned budget : forall node self node' self',
  visit_expr budget node self = Returns node' self' ->
  self' = self /\ depth_expr node' <= budget /\ rewritten node' = true.
Proof.
  induction budget as [|budget IH]; intros node self node' self' H;
    [discriminate|].
  assert (Hl : forall l s l' s',
            visit_exprs (visit_expr budget) l s = Returns l' s' ->
            foldr (fun x m => max (depth_expr x) m) 0 l' <= budget
            /\ forallb rewritten l' = true).
  { intros l s l' s' Hl.
    apply (visit_exprs_Returns
             (fun _ x' => depth_expr x' <= budget /\ rewritten x' = true))
      in Hl.
    - apply Forall2_Forall_r with (Q := fun x' =>
        depth_expr x' <= budget /\ rewritten x' = true) in Hl.
      + apply Forall_and in Hl as [Hd Hr].
        split; [now apply foldr_max_le|now apply Forall_forallb].
      + apply Forall_true. tauto.
    - intros x s1 x' s1' _ Hx. now apply IH in Hx. }
  assert (Hs : forall l s l' s',
            visit_exprs (visit_expr budget) l s = Returns l' s' -> s' = s).
  { induction l as [|x l IHl]; intros s l' s' Hvl.
    - now apply ret_Returns in Hvl as [_ <-].
    - rewrite visit_exprs_cons in Hvl. returned Hvl.
      apply IH in Ha as [-> _]. now apply IHl in Ha0. }
  rewrite visit_expr_S in H.
  destruct node as [l op r|op e|l ops cs|func args|id ctx|v];
    cbn [dispatch_expr visit_BinOp visit_UnaryOp visit_Compare visit_Call
         generic_visit_expr] in H.
  - returned H. apply IH in Ha as (-> & Hd1 & Hr1).
    apply IH in Ha0 as (-> & Hd2 & Hr2).
    split; [done|]. split; [simpl; lia|]. simpl. rewrite Hr1, Hr2.
    now destruct op.
  - returned H. apply IH in Ha as (-> & Hd1 & Hr1).
    split; [done|]. split; [simpl; lia|done].
  - returned H. apply index_Returns in Ha as [Hop0 <-].
    apply IH in Ha0 as (-> & Hd1 & Hr1).
    pose proof (Hs _ _ _ _ Ha1) as ->.
    apply Hl in Ha1 as [Hd2 Hr2].
    split; [done|]. split; [simpl; lia|]. simpl. rewrite Hr1, Hr2.
    destruct ops as [|op0 ops]; [discriminate|].
    injection Hop0 as ->. now destruct a.
  - apply bind_Returns in H as (func' & s0 & Hfunc & H).
    cbn [generic_visit_expr] in H. returned H.
    assert (Hren : s0 = self /\ is_Name_len func' = false).
    { destruct func as [| | | |id ctx|];
        try (apply ret_Returns in Hfunc as [<- <-]; done).
      destruct (String.eqb id "len") eqn:Eid;
        [|apply ret_Returns in Hfunc as [<- <-]; simpl; now rewrite Eid].
      returned Hfunc. apply index_Returns in Ha1 as [_ <-].
      destruct (isinstance_Str a1);
        apply ret_Returns in Hfunc as [<- <-]; done. }
    destruct Hren as [-> Hren].
    pose proof (visit_expr_is_Name_len _ _ _ _ _ Ha) as Hname.
    apply IH in Ha as (-> & Hd1 & Hr1).
    pose proof (Hs _ _ _ _ Ha0) as ->.
    apply Hl in Ha0 as [Hd2 Hr2].
    split; [done|]. split; [simpl; lia|]. simpl. rewrite Hr1, Hr2.
    destruct (is_Name_len a) eqn:E; [|done].
    rewrite Hname in Hren; done.
  - apply ret_Returns in H as [<- <-]. split; [done|]. split; [simpl; lia|done].
  - destruct v; try (apply ret_Returns in H as [<- <-];
                     split; [done|]; split; [simpl; lia|done]).
    returned H. apply IH in Ha as (-> & Hd1 & Hr1).
    split; [done|]. split; [simpl; lia|done].
Qed.

Lemma visit_exprs_fixed visit (l : list expr) : forall self,
  (forall x s, x ∈ l -> visit x s = Returns x s) ->
  visit_exprs visit l self = Returns l self.
Proof.
  induction l as [|x l IH]; intros self Hl; [reflexivity|].
  rewrite visit_exprs_cons. unfold bind at 1. rewrite Hl by left.
  unfold bind at 1. rewrite IH; [reflexivity|].
  intros y s Hy. apply Hl. now right.
Qed.

Lemma visit_expr_fixed budget : forall node self,
  depth_expr node <= budget -> rewritten node = true ->
  visit_expr budget node self = Returns node self.
Proof.
  induction budget as [|budget IH]; intros node self Hd Hr.
  { pose proof (depth_expr_pos node). lia. }
  assert (Hl : forall l s,
            foldr (fun x m => max (depth_expr x) m) 0 l <= budget ->
            forallb rewritten l = true ->
            visit_exprs (visit_expr budget) l s = Returns l s).
  { intros l s Hdl Hrl. apply visit_exprs_fixed. intros x s' Hx.
    apply IH; [apply depth_expr_elem in Hx; lia|].
    now apply (forallb_elem _ l). }
  rewrite visit_expr_S.
  destruct node as [l op r|op e|l ops cs|func args|id ctx|v];
    cbn [dispatch_expr visit_BinOp visit_UnaryOp visit_Compare visit_Call
         generic_visit_expr]; simpl in Hd, Hr.
  - apply andb_true_iff in Hr as [[Hop Hr1]%andb_true_iff Hr2].
    unfold bind. rewrite !IH by (done || lia). now destruct op.
  - unfold bind. rewrite IH by (done || lia). now destruct op.
  - apply andb_true_iff in Hr as [[Hop Hr1]%andb_true_iff Hr2].
    destruct ops as [|op0 ops]; [done|].
    unfold index. cbn [lookup list_lookup]. rewrite bind_ret.
    assert (Hops : match op0 with In => <[0:=Eq]> (op0 :: ops)
                   | _ => op0 :: ops end = op0 :: ops) by now destruct op0.
    rewrite Hops. cbn [generic_visit_expr].
    unfold bind. rewrite IH by (done || lia). now rewrite Hl by (done || lia).
  - apply andb_true_iff in Hr as [[Hf Hr1]%andb_true_iff Hr2].
    assert (Hren : forall k : expr -> M expr,
       bind (match func with
             | Name id ctx =>
                 if String.eqb id "len"
                 then let* arg0 := index args 0 in
                      if isinstance_Str arg0
                      then ret (Name "string.len" ctx)
                      else ret (Name "table.getn" ctx)
                 else ret func
             | _ => ret func
             end) k self = k func self).
    { intros k. destruct func as [| | | |id ctx|]; try reflexivity.
      simpl in Hf. now destruct (String.eqb id "len"). }
    rewrite Hren. cbn [generic_visit_expr].
    unfold bind. rewrite IH by (done || lia). now rewrite Hl by (done || lia).
  - reflexivity.
  - destruct v; try reflexivity.
    unfold bind. now rewrite IH by (done || lia).
Qed.

(** ** Expressions: when the traversal returns *)





(** X1.  Whatever expression the traversal returns has nothing left for
    the rules: it holds no floor division and no call of the name [len],
    and no comparison in it starts with [in].  Visiting it again, with the
    same budget, returns it as it is. *)
Theorem visit_expr_idempotent budget node self node' self' :
  visit_expr budget node self = Returns node' self' ->
  self' = self
  /\ rewritten node' = true
  /\ visit_expr budget node' self' = Returns node' self'.
Proof.
  intros H. apply visit_expr_returned in H as (-> & Hd & Hr).
  split; [done|]. split; [done|]. now apply visit_expr_fixed.
Qed.

(** [len("s") // n in xs] *)
Lemma visit_expr_idempotent_witness :
  rewritten
    (Compare
       (BinOp (Call (Name "string.len" Load) [Constant (CStr "s")]) Div
          (Name "n" Load))
       [Eq] [Name "xs" Load]) = true
  /\ visit_expr 4
       (Compare
          (BinOp (Call (Name "string.len" Load) [Constant (CStr "s")]) Div
             (Name "n" Load))
          [Eq] [Name "xs" Load]) init =
     Returns
       (Compare
          (BinOp (Call (Name "string.len" Load) [Constant (CStr "s")]) Div
             (Name "n" Load))
          [Eq] [Name "xs" Load]) init.
Proof.
  apply (visit_expr_idempotent 4
           (Compare
              (BinOp (Call (Name "len" Load) [Constant (CStr "s")]) FloorDiv
                 (Name "n" Load))
              [In] [Name "xs" Load]) init).
  reflexivity.
Defined.



(** X3.  [visit_UnaryOp] changes nothing: whatever the operator, [not]
    included, the node keeps it and is walked as [generic_visit] walks
    it. *)
Theorem visit_UnaryOp_keeps_operator self_visit budget op operand self :
  visit_UnaryOp self_visit (UnaryOp op operand) self =
  generic_visit_expr self_visit (UnaryOp op operand) self
  /\ visit_expr (S budget) (UnaryOp op operand) self =
     (let* operand := visit_expr budget operand in
      ret (UnaryOp op operand)) self.
Proof.
  assert (H : forall visit,
            visit_UnaryOp visit (UnaryOp op operand) self =
            generic_visit_expr visit (UnaryOp op operand) self)
    by (intros visit; now destruct op).
  split; [apply H|]. rewrite visit_expr_S. cbn [dispatch_expr]. now rewrite H.
Qed.

(** X4.  [visit_Compare] looks at the first operator only: a first [in]
    becomes [==], the operators after it stay as they are, a later [in]
    too, and so does a first operator that is not [in] ([not in]
    included).  A comparison without operators raises [IndexError]. *)
Theorem visit_Compare_first_operator
    self_visit budget left_ op0 ops comparators self :
  visit_Compare self_visit (Compare left_ (In :: ops) comparators) self =
  generic_visit_expr self_visit (Compare left_ (Eq :: ops) comparators) self
  /\ (op0 <> In ->
      visit_Compare self_visit (Compare left_ (op0 :: ops) comparators) self =
      generic_visit_expr self_visit
        (Compare left_ (op0 :: ops) comparators) self)
  /\ visit_expr (S budget) (Compare left_ [] comparators) self =
     Raises IndexError.
Proof.
  split; [reflexivity|]. split; [|reflexivity].
  intros Hop. cbn [visit_Compare]. unfold index. cbn [lookup list_lookup].
  rewrite bind_ret. now destruct op0.
Qed.

(** [a not in b in c] keeps both operators. *)
Lemma visit_Compare_first_operator_witness :
  visit_expr 2
    (Compare (Name "a" Load) [NotIn; In] [Name "b" Load; Name "c" Load]) init =
  Returns
    (Compare (Name "a" Load) [NotIn; In] [Name "b" Load; Name "c" Load]) init.
Proof.
  rewrite visit_expr_S. cbn [dispatch_expr].
  rewrite (proj1 (proj2 (visit_Compare_first_operator (visit_expr 1) 0
                           (Name "a" Load) NotIn [In]
                           [Name "b" Load; Name "c" Load] init)));
    [reflexivity | discriminate].
Defined.

(** ** Statements: nothing is ever removed *)

Lemma visit_returns_statements budget node self v self' :
  visit budget node self = Returns v self' -> 1 <= length (splice v).
Proof.
  destruct budget as [|budget]; [discriminate|].
  rewrite visit_S.
  destruct node as [name params body|test body orelse|target iter body orelse
                   |test body orelse|targets value|target op value|value|value];
    cbn [dispatch_stmt visit_FunctionDef visit_Assign generic_visit];
    intros H; try (returned H; simpl; lia).
  - unfold visit_If in H.
    apply bind_Returns in H as (o & s & _ & H).
    destruct (length o =? 0)%nat; returned H; simpl; lia.
  - destruct (1 <? length targets)%nat eqn:E.
    + apply ret_Returns in H as [<- _]. cbn [splice].
      rewrite length_map. apply Nat.ltb_lt in E. lia.
    + cbn [generic_visit] in H. returned H. simpl. lia.
  - cbn [visit_Return] in H.
    apply bind_Returns in H as (stack & s & _ & H).
    destruct (last stack) as [scope|];
      [destruct (String.eqb scope "function")|];
      apply ret_Returns in H as [<- _]; simpl; lia.
Qed.

Lemma length_concat_splice (l : list stmt) (vs : list visited) :
  Forall2 (fun _ v => 1 <= length (splice v)) l vs ->
  length l <= length (concat (map splice vs)).
Proof.
  induction 1; simpl; [lia|]. rewrite length_app. lia.
Qed.

Lemma visit_stmts_length budget (l l' : list stmt) self self' :
  visit_stmts (visit budget) l self = Returns l' self' ->
  length l <= length l'.
Proof.
  intros H.
  apply (visit_stmts_Returns (fun _ v => 1 <= length (splice v))) in H
    as (vs & Hvs & ->).
  - now apply length_concat_splice.
  - intros x s v s' _ Hx. now apply visit_returns_statements in Hx.
Qed.

(** X5.  No rule removes a statement: whatever a visited statement is
    replaced by is one statement or more, so the body of the module that
    the traversal returns has at least as many statements as the body it
    was given. *)
Theorem transform_keeps_every_statement body body' self' :
  transform (PyModule body) = Returns (PyModule body') self' ->
  length body <= length body'.
Proof.
  unfold transform. cbn [depth_Module visit_Module].
  intros H. apply bind_Returns in H as (l & s & Hl & H).
  apply ret_Returns in H as [[= <-] _].
  now apply visit_stmts_length in Hl.
Qed.

(** [x = y = a // b] and [z = a // b]: two statements become three. *)
Lemma transform_keeps_every_statement_witness :
  length [x_y_assign a_floordiv_b; z_assign a_floordiv_b] <=
  length [Assign [Name "x" Store] (Some a_floordiv_b);
          Assign [Name "y" Store] (Some a_floordiv_b);
          z_assign a_div_b].
Proof.
  apply (transform_keeps_every_statement
           [x_y_assign a_floordiv_b; z_assign a_floordiv_b] _ init).
  reflexivity.
Defined.

(** ** [visit_FunctionDef] *)

(** X6.  A function definition keeps its name and its parameters and gets
    the [print] statement in front of its body, the statements of the body
    visited behind it; the inserted statement itself comes back from its
    visit as it was.  The rule does not look for a statement it has
    inserted before: a definition whose body already starts with that
    statement gets a second one. *)
Theorem visit_FunctionDef_prepends budget name params body self :
  visit (S (S (S (S budget)))) (FunctionDef name params body) self =
  (let* body := visit_stmts (visit (S (S (S budget)))) body in
   ret (VNode (FunctionDef name params (extra_stmt :: body)))) self
  /\ visit (S (S (S (S budget))))
       (FunctionDef name params (extra_stmt :: body)) self =
     (let* body := visit_stmts (visit (S (S (S budget)))) body in
      ret (VNode (FunctionDef name params (extra_stmt :: extra_stmt :: body))))
       self.
Proof.
  assert (H : forall l,
            visit (S (S (S (S budget)))) (FunctionDef name params l) self =
            (let* l' := visit_stmts (visit (S (S (S budget)))) l in
             ret (VNode (FunctionDef name params (extra_stmt :: l')))) self).
  { intros l. rewrite visit_S.
    cbn [dispatch_stmt visit_FunctionDef generic_visit].
    rewrite visit_stmts_cons. unfold bind at 1 2.
    rewrite visit_extra_stmt. unfold bind.
    destruct (visit_stmts _ l self); reflexivity. }
  split; [apply H|]. rewrite H, visit_stmts_cons.
  unfold bind at 1 2. rewrite visit_extra_stmt. unfold bind.
  destruct (visit_stmts _ body self); reflexivity.
Qed.

(** ** [visit_For]: what it reads and what it ignores *)

(** X7.  [visit_For] returns exactly when the target of the loop is a name
    and its iterable is a call with two arguments or more.  It never looks
    at the callee, at the [else] block of the loop or at an argument after
    the third: two loops that differ in these only are rewritten into the
    same statements. *)
Theorem visit_For_returns_iff target iter body orelse self :
  ((exists v, visit_For (For target iter body orelse) self = Returns v self)
   <-> (exists id ctx func start stop more,
          target = Name id ctx /\ iter = Call func (start :: stop :: more)))
  /\ (forall id ctx func func' start stop step more more' orelse',
        visit_For
          (For (Name id ctx) (Call func (start :: stop :: step :: more))
             body orelse) self =
        visit_For
          (For (Name id ctx) (Call func' (start :: stop :: step :: more'))
             body orelse') self)
  /\ (forall id ctx func func' start stop orelse',
        visit_For (For (Name id ctx) (Call func [start; stop]) body orelse)
          self =
        visit_For (For (Name id ctx) (Call func' [start; stop]) body orelse')
          self).
Proof.
  split; [|split; reflexivity]. split.
  - intros [v H].
    destruct target as [| | | |id ctx|]; try discriminate.
    destruct iter as [| | |func args| |]; try discriminate.
    destruct args as [|start [|stop more]]; try discriminate.
    now exists id, ctx, func, start, stop, more.
  - intros (id & ctx & func & start & stop & more & -> & ->).
    destruct more as [|step more]; eexists; reflexivity.
Qed.

(** ** [visit_If]: statements without a test *)

Lemma chain_orelse_raises entries : forall current_if self entry,
  entry ∈ entries -> branch entry = None ->
  chain_orelse current_if entries self = Raises AttributeError.
Proof.
  induction entries as [|orelse rest IH]; intros current_if self entry Hin Hb;
    [now apply elem_of_nil in Hin|].
  cbn [chain_orelse]. unfold bind at 1.
  destruct (getattr_orelse current_if self) as [slot s| |] eqn:Eslot;
    [|destruct current_if; try discriminate Eslot;
      injection Eslot as <-; reflexivity
     |destruct current_if; discriminate Eslot].
  apply elem_of_cons in Hin as [<- | Hin].
  - destruct entry; try discriminate Hb; reflexivity.
  - destruct (isinstance_If orelse).
    + unfold bind. now rewrite (IH _ _ entry).
    + destruct orelse; try reflexivity.
      all: cbn [getattr_test getattr_body]; rewrite ?bind_ret.
      all: try reflexivity.
      all: unfold index; destruct slot as [|first slot];
        cbn [app lookup list_lookup]; rewrite bind_ret.
      all: unfold bind; now rewrite (IH _ _ entry).
Qed.

(** X8.  An [if] whose [orelse] holds a statement that is neither an [if]
    nor a [while] (a plain [else] block begins with one, most often)
    raises [AttributeError], whatever the other entries are.  An [if]
    with one [elif], the shape the parser gives every [elif] ladder, is
    returned with the same test, body and [orelse]. *)
Theorem visit_If_else_block budget test body orelse entry test' body' orelse' self :
  (entry ∈ orelse -> branch entry = None ->
   visit (S budget) (If test body orelse) self = Raises AttributeError)
  /\ visit (S budget) (If test body [If test' body' orelse']) self =
     Returns (VNode (If test body [If test' body' orelse'])) self.
Proof.
  split; [|reflexivity].
  intros Hin Hb. rewrite visit_S. cbn [dispatch_stmt]. unfold visit_If.
  cbn [getattr_orelse getattr_test getattr_body]. rewrite bind_ret.
  destruct orelse as [|first rest]; [now apply elem_of_nil in Hin|].
  cbn [length Nat.eqb]. rewrite !bind_ret. unfold bind.
  now rewrite (chain_orelse_raises _ _ _ entry).
Qed.

(** [if a: print(i) else: if b: print(i); z = a / b]: the assignment is
    the second statement of the [else] block. *)
Lemma visit_If_else_block_witness :
  visit 1
    (If (Name "a" Load) [print_i]
       [If (Name "b" Load) [print_i] []; z_assign a_div_b]) init =
  Raises AttributeError.
Proof.
  apply (visit_If_else_block 0 (Name "a" Load) [print_i]
           [If (Name "b" Load) [print_i] []; z_assign a_div_b]
           (z_assign a_div_b) (Name "b" Load) [] [] init).
  - apply list_elem_of_In. simpl. tauto.
  - reflexivity.
Defined.

(** ** [compile_lua]: its three answers *)

(** X9.  [compile_lua] returns the text exactly when the parser returns a
    tree, the traversal returns and the printer returns the text for the
    tree it is given.  It returns [None] exactly when the parser, or the
    printer, raises [SyntaxError].  In every other case an exception
    leaves it. *)
Theorem compile_lua_result parse to_source code compiled_code :
  (compile_lua parse to_source code = Value (Some compiled_code) <->
   exists parsed_ast transformed_ast self,
     parse code = inr parsed_ast
     /\ transform parsed_ast = Returns transformed_ast self
     /\ to_source transformed_ast = inr compiled_code)
  /\ (compile_lua parse to_source code = Value None <->
      parse code = inl SyntaxError
      \/ exists parsed_ast transformed_ast self,
           parse code = inr parsed_ast
           /\ transform parsed_ast = Returns transformed_ast self
           /\ to_source transformed_ast = inl SyntaxError)
  /\ ((forall v, compile_lua parse to_source code <> Value v) ->
      exists e, compile_lua parse to_source code = Uncaught e
                /\ e <> SyntaxError).
Proof.
  unfold compile_lua.
  destruct (parse code) as [e|parsed_ast] eqn:Ep.
  - split; [|split].
    + split; [now destruct e|]. now intros (? & ? & ? & ? & _).
    + split; [destruct e; try discriminate; now left|].
      intros [H | (? & ? & ? & ? & _)]; [|done]. now injection H as ->.
    + intros Hv. destruct e; [now destruct (Hv None)| |];
        eexists; (split; [reflexivity|discriminate]).
  - pose proof (transform_answers parsed_ast) as Ha.
    destruct (transform parsed_ast) as [node self|e|] eqn:Et; [| |done].
    + destruct (to_source node) as [e|text] eqn:Es.
      * split; [|split].
        -- split; [now destruct e|].
           intros (m & t & s & Hm & Ht & Hs).
           injection Hm as <-. rewrite Et in Ht. injection Ht as <- <-.
           congruence.
        -- split.
           ++ destruct e; try discriminate. intros _. right.
              now exists parsed_ast, node, self.
           ++ intros [H | (m & t & s & Hm & Ht & Hs)]; [done|].
              injection Hm as <-. rewrite Et in Ht. injection Ht as <- <-.
              rewrite Es in Hs. now injection Hs as ->.
        -- intros Hv. destruct e; [now destruct (Hv None)| |];
             eexists; (split; [reflexivity|discriminate]).
      * split; [|split].
        -- split.
           ++ intros [= ->]. now exists parsed_ast, node, self.
           ++ intros (m & t & s & Hm & Ht & Hs).
              injection Hm as <-. rewrite Et in Ht. injection Ht as <- <-.
              congruence.
        -- split; [discriminate|].
           intros [H | (m & t & s & Hm & Ht & Hs)]; [done|].
           injection Hm as <-. rewrite Et in Ht. injection Ht as <- <-.
           congruence.
        -- intros Hv. now destruct (Hv (Some text)).
    + assert (He : handler e = Uncaught e /\ e <> SyntaxError)
        by (destruct Ha as [-> | ->]; split; done).
      destruct He as [-> He]. split; [|split].
      * split; [discriminate|].
        intros (m & t & s & Hm & Ht & _).
        injection Hm as <-. rewrite Et in Ht. discriminate.
      * split; [discriminate|].
        intros [H | (m & t & s & Hm & Ht & _)]; [done|].
        injection Hm as <-. rewrite Et in Ht. discriminate.
      * intros _. now exists e.
Qed.

(** ** [visit_Return]: when the node comes back *)

(** X10.  [visit_Return] returns the node itself in every case but one:
    the scope stack is not empty and its last frame is ['function'].  A
    frame of any other name on top, ['loop'] say, leaves the [return] as it
    is. *)
Theorem visit_Return_unchanged_iff value self :
  visit_Return (Return value) self = Returns (VNode (Return value)) self
  <-> last (scope_stack self) <> Some "function".
Proof.
  cbn [visit_Return]. unfold bind, get_scope_stack.
  destruct (last (scope_stack self)) as [scope|]; [|done].
  destruct (String.eqb scope "function") eqn:E.
  - apply String.eqb_eq in E as ->. split; [discriminate|done].
  - apply String.eqb_neq in E. split; [congruence|done].
Qed.

(** ** Statements that the traversal leaves as they are *)

Lemma forallb_settled_elem (l : list stmt) x :
  forallb settled l = true -> x ∈ l -> settled x = true.
Proof.
  intros Hall Hx. induction Hx; simpl in Hall;
    apply andb_true_iff in Hall as [? ?]; auto.
Qed.

Lemma visit_stmts_fixed visit (l : list stmt) self :
  (forall x, x ∈ l -> visit x self = Returns (VNode x) self) ->
  visit_stmts visit l self = Returns l self.
Proof.
  induction l as [|x l IH]; intros Hl; [reflexivity|].
  rewrite visit_stmts_cons. unfold bind at 1. rewrite Hl by left.
  unfold bind at 1. rewrite IH; [reflexivity|].
  intros y Hy. apply Hl. now right.
Qed.

Lemma visit_settled budget : forall node self,
  last (scope_stack self) <> Some "function" ->
  depth node <= budget -> settled node = true ->
  visit budget node self = Returns (VNode node) self.
Proof.
  induction budget as [|budget IH]; intros node self Hself Hd Hs.
  { pose proof (depth_pos node). lia. }
  assert (He : forall e s, depth_expr e <= budget -> rewritten e = true ->
            visit_expr budget e s = Returns e s)
    by (intros; now apply visit_expr_fixed).
  assert (Hl : forall l,
            foldr (fun x n => max (depth x) n) 0 l <= budget ->
            forallb settled l = true ->
            visit_stmts (visit budget) l self = Returns l self).
  { intros l Hdl Hsl. apply visit_stmts_fixed. intros x Hx.
    apply IH; [done|apply depth_elem in Hx; lia|].
    now apply (forallb_settled_elem l). }
  rewrite visit_S.
  destruct node as [name params body|test body orelse|target iter body orelse
                   |test body orelse|targets value|target op value|value|value];
    simpl in Hd, Hs; try discriminate;
    cbn [dispatch_stmt visit_Assign generic_visit].
  - destruct orelse as [|[] []]; try discriminate; reflexivity.
  - apply andb_true_iff in Hs as [[Ht Hb]%andb_true_iff Ho].
    unfold bind. rewrite He by (done || lia).
    rewrite Hl by (done || lia). now rewrite Hl by (done || lia).
  - apply andb_true_iff in Hs as [[Hk Hts]%andb_true_iff Hv].
    apply Nat.leb_le in Hk.
    destruct (1 <? length targets)%nat eqn:E; [apply Nat.ltb_lt in E; lia|].
    cbn [generic_visit]. unfold bind.
    rewrite visit_exprs_fixed.
    + destruct value as [v|]; [|reflexivity].
      cbn [visit_opt]. unfold bind. simpl in Hv, Hd.
      now rewrite He by (done || lia).
    + intros x s Hx. apply He; [apply depth_expr_elem in Hx; lia|].
      now apply (forallb_elem _ targets).
  - apply andb_true_iff in Hs as [Ht Hv].
    unfold bind. rewrite !He by (done || lia). reflexivity.
  - cbn [visit_Return]. unfold bind, get_scope_stack.
    destruct (last (scope_stack self)) as [scope|]; [|reflexivity].
    destruct (String.eqb scope "function") eqn:E; [|reflexivity].
    apply String.eqb_eq in E as ->. done.
  - unfold bind. now rewrite He by (done || lia).
Qed.

(** X11.  A module without function definitions, [for] loops and
    assignments to several targets, whose [if] statements have no [else]
    or one [elif], and whose visited expressions hold no floor division,
    no call of the name [len] and no comparison that starts with [in], is
    returned by the traversal as it was given: a run on such a module
    changes nothing. *)
Theorem transform_settled body :
  forallb settled body = true ->
  transform (PyModule body) = Returns (PyModule body) init.
Proof.
  intros Hs. unfold transform. cbn [depth_Module visit_Module].
  unfold bind. rewrite visit_stmts_fixed; [reflexivity|].
  intros x Hx. apply visit_settled; [done|now apply depth_elem|].
  now apply (forallb_settled_elem body).
Qed.

(** [while i < 5: z = a / b; i += 1] and [return x] *)
Lemma transform_settled_witness :
  transform
    (PyModule [while_i (Constant (CInt 5)) [z_assign a_div_b; i_increment];
               return_x]) =
  Returns
    (PyModule [while_i (Constant (CInt 5)) [z_assign a_div_b; i_increment];
               return_x]) init.
Proof.
  apply (transform_settled
           [while_i (Constant (CInt 5)) [z_assign a_div_b; i_increment];
            return_x]).
  reflexivity.
Defined.

(** ** The traversal as a whole *)


(** ** [visit_BinOp] *)

(** A binary operation keeps its operator unless that is floor division,
    which becomes division; its operands are visited, the left one
    first. *)
Lemma visit_BinOp_floor_division budget left_ op right_ self :
  visit_expr (S budget) (BinOp left_ op right_) self =
  (let* left_ := visit_expr budget left_ in
   let* right_ := visit_expr budget right_ in
   ret (BinOp left_ (if is_FloorDiv op then Div else op) right_)) self.
Proof. rewrite visit_expr_S. now destruct op. Qed.

(** The loop over a name: neither text nor [None] comes back. *)
Lemma compile_lua_result_witness :
  exists e,
    compile_lua
      (parses_to (PyModule [For (Name "x" Store) (Name "xs" Load) [print_i] []]))
      (prints "") "for x in xs: print(i)" = Uncaught e
    /\ e <> SyntaxError.
Proof.
  apply (compile_lua_result
           (parses_to
              (PyModule [For (Name "x" Store) (Name "xs" Load) [print_i] []]))
           (prints "") "for x in xs: print(i)" "").
  intros v. discriminate.
Defined.
